(** * WebWorldWind heat map layer: geographical filter and gradient

    A shallow embedding of [src/layer/heatmap/GeographicalFilter.js] and of
    the pure part of [src/layer/heatmap/HeatMapLayer.js].

    Conventions of the embedding.
    - A JavaScript number that holds a coordinate or a measure is an exact
      rational ([Q]); rounding of IEEE doubles is not modelled.  A number
      produced by [Math.floor] or [Math.ceil] is an integer ([Z]).
    - A JavaScript exception is a value of [JSError]; a function that may
      throw returns a [Completion].
    - The grid of [createGrid] is a JavaScript object of objects, embedded
      as a finite map of finite maps; reading a missing key gives
      [undefined], and using [undefined] as an object throws [TypeError].
    - The array that [setGradient] sorts in place lives in a store and is
      passed by reference.  A filter is modelled on the contents its array
      had when the filter was built; its queries only read it. *)

From Stdlib Require Import ZArith QArith Qround Qcanon Qabs Lia Lqa.
From Stdlib Require Import Permutation Sorted.
From stdpp Require Import base option list sorting gmap strings.

Local Open Scope Z_scope.

(** ** Geometry primitives *)

(** Modelled from the spec: the weighted point [MeasuredLocation] of
    [src/geom/MeasuredLocation.js] (not part of the reviewed sources), a
    triple of latitude, longitude and measure. *)
Record MeasuredLocation : Type := mkMeasuredLocation {
  latitude : Q;
  longitude : Q;
  measure : Q
}.

(** Modelled from the spec: the region [Sector] of [src/geom/Sector.js]
    (not part of the reviewed sources), an axis-aligned latitude/longitude
    box.  The constructor stores its four arguments as given. *)
Record Sector : Type := mkSector {
  minLatitude : Q;
  maxLatitude : Q;
  minLongitude : Q;
  maxLongitude : Q
}.

(** Modelled from the spec: the point-containment test of a [Sector]; the
    box is closed, as the unit tests of the filter require (a point on the
    edge of the queried sector is returned). *)
Definition containsLocation (s : Sector) (lat lon : Q) : bool :=
  Qle_bool (minLatitude s) lat && Qle_bool lat (maxLatitude s)
  && Qle_bool (minLongitude s) lon && Qle_bool lon (maxLongitude s).

(** [x < y] on numbers, as a boolean. *)
Definition Qlt_bool (x y : Q) : bool := negb (Qle_bool y x).

(** ** Exceptions *)

Inductive JSError : Type := ArgumentError | TypeError.

Inductive Completion (A : Type) : Type :=
  | Return (a : A)
  | Throw (e : JSError).
Arguments Return {A} a.
Arguments Throw {A} e.

#[export] Instance Completion_ret : MRet Completion := @Return.
#[export] Instance Completion_bind : MBind Completion := λ A B f m,
  match m with
  | Return a => f a
  | Throw e => Throw e
  end.

(** [array.forEach] with a callback that threads an accumulator and may
    throw: the first exception aborts the iteration. *)
Fixpoint forEach {A B : Type} (f : B → A → Completion B) (l : list A) (acc : B)
  : Completion B :=
  match l with
  | [] => Return acc
  | x :: l' => acc' ← f acc x; forEach f l' acc'
  end.

(** The integers [lo, lo+1, ..., hi] of a loop
    [for (i = lo; i <= hi; i++)]; empty when [hi < lo]. *)
Definition fromTo (lo hi : Z) : list Z := seqZ lo (hi - lo + 1).

(** ** Arrays *)

Module JSArray.

(** [Array.prototype.sort(comparefn)].  The language fixes the result
    only for a consistent comparator; the model is a stable insertion sort
    that asks the question V8 asks when it detects runs and inserts: the
    elements are taken from left to right, and the element [x] being
    placed moves towards the front past a neighbour [y] exactly while
    [comparefn(x, y) < 0].  The sorted prefix is kept reversed in
    [insertLast] (its head is the last element placed). *)
Fixpoint insertLast {A : Type} (comparefn : A → A → Z) (x : A) (r : list A)
  : list A :=
  match r with
  | [] => [x]
  | y :: r' =>
      if comparefn x y <? 0 then y :: insertLast comparefn x r' else x :: r
  end.

Definition sort {A : Type} (comparefn : A → A → Z) (l : list A) : list A :=
  reverse (foldl (λ r x, insertLast comparefn x r) [] l).

End JSArray.

(** ** GeographicalFilter *)

Module GeographicalFilter.

(** The grid: latitude cell, then longitude cell, then the points of the
    cell in the order they were pushed. *)
Abbreviation Row := (gmap Z (list MeasuredLocation)).
Abbreviation Grid := (gmap Z (gmap Z (list MeasuredLocation))).

(** The inner loop of [createGrid]: [data[lat][lon] = []] for every
    longitude cell from -180 to 180. *)
Definition emptyRow : Row :=
  foldl (λ row lon, <[lon := []]> row) ∅ (fromTo (-180) 180).

(** The outer loop of [createGrid]: one row for every latitude cell from
    -90 to 90. *)
Definition emptyGrid : Grid :=
  foldl (λ data lat, <[lat := emptyRow]> data) ∅ (fromTo (-90) 90).

(** [data[lat][lon]]: [undefined] rows and cells throw once they are used
    as an array. *)
Definition cellAt (data : Grid) (lat lon : Z)
  : Completion (list MeasuredLocation) :=
  match data !! lat with
  | None => Throw TypeError
  | Some row =>
      match row !! lon with
      | None => Throw TypeError
      | Some cell => Return cell
      end
  end.

(** [data[latitude][longitude].push(measured)]. *)
Definition pushMeasured (data : Grid) (measured : MeasuredLocation)
  : Completion Grid :=
  let lat := Qfloor (latitude measured) in
  let lon := Qfloor (longitude measured) in
  match data !! lat with
  | None => Throw TypeError
  | Some row =>
      match row !! lon with
      | None => Throw TypeError
      | Some cell =>
          Return (<[lat := <[lon := cell ++ [measured]]> row]> data)
      end
  end.

Definition createGrid (measuredLocations : list MeasuredLocation)
  : Completion Grid :=
  forEach pushMeasured measuredLocations emptyGrid.

(** The filter object: [_dataStructure] is the tag, [_data] the payload. *)
Inductive t : Type :=
  | GridFilter (_data : Grid)
  | ArrayFilter (_data : list MeasuredLocation).

Definition _dataStructure (this : t) : string :=
  match this with
  | GridFilter _ => "GRID"
  | ArrayFilter _ => "ARRAY"
  end.

(** The constructor [new GeographicalFilter(data, dataStructure)]. *)
Definition new (data : list MeasuredLocation) (dataStructure : string)
  : Completion t :=
  if bool_decide (dataStructure ≠ "GRID") && bool_decide (dataStructure ≠ "ARRAY")
  then Throw ArgumentError
  else if bool_decide (dataStructure = "GRID")
  then grid ← createGrid data; Return (GridFilter grid)
  else Return (ArrayFilter data).

(** *** Queries *)

(** The local variables of [grid] and [array] after [Math.floor]. *)
Definition flooredMinLongitude (sector : Sector) : Z := Qfloor (minLongitude sector).
Definition flooredMaxLongitude (sector : Sector) : Z := Qfloor (maxLongitude sector).
Definition flooredMinLatitude (sector : Sector) : Z := Qfloor (minLatitude sector).
Definition flooredMaxLatitude (sector : Sector) : Z := Qfloor (maxLatitude sector).

Definition extraLongitudeBefore (sector : Sector) : Z :=
  let minLongitude := flooredMinLongitude sector in
  if minLongitude <=? -180 then Z.abs (minLongitude - (-180)) else 0.

Definition extraLongitudeAfter (sector : Sector) : Z :=
  let maxLongitude := flooredMaxLongitude sector in
  if maxLongitude >=? 180 then Z.abs (maxLongitude - 180) else 0.

(** The bounds of the cell loops of [grid], after the four clamping
    [if]s. *)
Definition scanMinLatitude (sector : Sector) : Z :=
  let minLatitude := flooredMinLatitude sector in
  if minLatitude <=? -90 then -90 else minLatitude.

Definition scanMaxLatitude (sector : Sector) : Z :=
  let maxLatitude := flooredMaxLatitude sector in
  if maxLatitude >=? 90 then 90 else maxLatitude.

Definition scanMinLongitude (sector : Sector) : Z :=
  let minLongitude := flooredMinLongitude sector in
  if minLongitude <=? -180 then -180 else minLongitude.

Definition scanMaxLongitude (sector : Sector) : Z :=
  let maxLongitude := flooredMaxLongitude sector in
  if maxLongitude >=? 180 then 180 else maxLongitude.

(** The callback of the primary pass: push the element itself. *)
Definition keepIn (sector : Sector) (element : MeasuredLocation)
  : list MeasuredLocation :=
  if containsLocation sector (latitude element) (longitude element)
  then [element] else [].

(** The callback of a wrap pass: push
    [new MeasuredLocation(latitude, shift + longitude, measure)]. *)
Definition shifted (shift : Q) (element : MeasuredLocation) : MeasuredLocation :=
  mkMeasuredLocation (latitude element) (shift + longitude element)%Q
    (measure element).

Definition shiftIn (sector : Sector) (shift : Q) (element : MeasuredLocation)
  : list MeasuredLocation :=
  if containsLocation sector (latitude element) (longitude element)
  then [shifted shift element] else [].

(** The two nested cell loops, pushing onto [result]. *)
Definition scan (data : Grid) (lats lons : list Z)
    (emit : MeasuredLocation → list MeasuredLocation)
    (result : list MeasuredLocation) : Completion (list MeasuredLocation) :=
  forEach (λ result lat,
    forEach (λ result lon,
      cell ← cellAt data lat lon;
      Return (result ++ flat_map emit cell)) lons result) lats result.

Definition gridBeforeSector (sector : Sector) : Sector :=
  mkSector (inject_Z (scanMinLatitude sector)) (inject_Z (scanMaxLatitude sector))
    (inject_Z (180 - extraLongitudeBefore sector)) 180.

Definition gridAfterSector (sector : Sector) : Sector :=
  mkSector (inject_Z (scanMinLatitude sector)) (inject_Z (scanMaxLatitude sector))
    (-180) (inject_Z (-180 + extraLongitudeAfter sector)).

Definition gridPrimaryPass (data : Grid) (sector : Sector)
    (result : list MeasuredLocation) : Completion (list MeasuredLocation) :=
  scan data (fromTo (scanMinLatitude sector) (scanMaxLatitude sector))
    (fromTo (scanMinLongitude sector) (scanMaxLongitude sector))
    (keepIn sector) result.

Definition gridBeforePass (data : Grid) (sector : Sector)
    (result : list MeasuredLocation) : Completion (list MeasuredLocation) :=
  if bool_decide (extraLongitudeBefore sector ≠ 0) then
    scan data (fromTo (scanMinLatitude sector) (scanMaxLatitude sector))
      (fromTo (180 - extraLongitudeBefore sector) 180)
      (shiftIn (gridBeforeSector sector) (-360)) result
  else Return result.

Definition gridAfterPass (data : Grid) (sector : Sector)
    (result : list MeasuredLocation) : Completion (list MeasuredLocation) :=
  if bool_decide (extraLongitudeAfter sector ≠ 0) then
    scan data (fromTo (scanMinLatitude sector) (scanMaxLatitude sector))
      (fromTo (-180) (-180 + extraLongitudeAfter sector))
      (shiftIn (gridAfterSector sector) 360) result
  else Return result.

Definition grid (data : Grid) (sector : Sector)
  : Completion (list MeasuredLocation) :=
  result ← gridPrimaryPass data sector [];
  result ← gridBeforePass data sector result;
  gridAfterPass data sector result.

(** [array] floors the latitude bounds but does not clamp them. *)
Definition arrayBeforeSector (sector : Sector) : Sector :=
  mkSector (inject_Z (flooredMinLatitude sector))
    (inject_Z (flooredMaxLatitude sector))
    (inject_Z (180 - extraLongitudeBefore sector)) 180.

Definition arrayAfterSector (sector : Sector) : Sector :=
  mkSector (inject_Z (flooredMinLatitude sector))
    (inject_Z (flooredMaxLatitude sector))
    (-180) (inject_Z (-180 + extraLongitudeAfter sector)).

Definition arrayPrimaryPass (data : list MeasuredLocation) (sector : Sector)
    (result : list MeasuredLocation) : list MeasuredLocation :=
  result ++ flat_map (keepIn sector) data.

Definition arrayBeforePass (data : list MeasuredLocation) (sector : Sector)
    (result : list MeasuredLocation) : list MeasuredLocation :=
  if bool_decide (extraLongitudeBefore sector ≠ 0) then
    result ++ flat_map (shiftIn (arrayBeforeSector sector) (-360)) data
  else result.

Definition arrayAfterPass (data : list MeasuredLocation) (sector : Sector)
    (result : list MeasuredLocation) : list MeasuredLocation :=
  if bool_decide (extraLongitudeAfter sector ≠ 0) then
    result ++ flat_map (shiftIn (arrayAfterSector sector) 360) data
  else result.

Definition array (data : list MeasuredLocation) (sector : Sector)
  : list MeasuredLocation :=
  arrayAfterPass data sector
    (arrayBeforePass data sector (arrayPrimaryPass data sector [])).

(** The comparator handed to [result.sort] in [filter], as written: its
    fourth test compares [elm2.longitude] with itself. *)
Definition compareLocations (elm1 elm2 : MeasuredLocation) : Z :=
  if Qlt_bool (latitude elm2) (latitude elm1) then 1
  else if Qlt_bool (latitude elm1) (latitude elm2) then -1
  else if Qlt_bool (longitude elm2) (longitude elm1) then 1
  else if Qlt_bool (longitude elm2) (longitude elm2) then -1
  else 0.

Definition filter (this : t) (sector : Sector)
  : Completion (list MeasuredLocation) :=
  result ← match this with
           | GridFilter data => grid data sector
           | ArrayFilter data => Return (array data sector)
           end;
  Return (JSArray.sort compareLocations result).

(** The reference point set of the unit tests. *)
Definition locationsToUseForTest : list MeasuredLocation :=
  [ mkMeasuredLocation (-45) (-140) 10;
    mkMeasuredLocation (-40) (-145) 10;
    mkMeasuredLocation (-35) (-150) 10;
    mkMeasuredLocation (-30) (-155) 10;
    mkMeasuredLocation (-25) (-160) 10;
    mkMeasuredLocation (-20) (-165) 10;
    mkMeasuredLocation (-15) (-170) 10;
    mkMeasuredLocation (-10) (-175) 10;
    mkMeasuredLocation (-5) (-179.9) 10;
    mkMeasuredLocation 0 179.9 10;
    mkMeasuredLocation 5 175 10;
    mkMeasuredLocation 10 170 10;
    mkMeasuredLocation 15 165 10;
    mkMeasuredLocation 20 160 10;
    mkMeasuredLocation 25 155 10;
    mkMeasuredLocation 30 150 10;
    mkMeasuredLocation 35 145 10;
    mkMeasuredLocation 40 140 10;
    mkMeasuredLocation 45 135 10 ]%Q.

End GeographicalFilter.

(** ** HeatMapLayer *)

Module HeatMapLayer.

(** Modelled from the spec: the enumeration of [./IntervalType] (not part
    of the reviewed sources), with its two members. *)
Inductive IntervalType : Type := CONTINUOUS | QUANTILES.

(** A key of the gradient object.  [gradient[x] = color] stores under the
    number [x]; [NaN] is a key of its own. *)
Inductive Stop : Type :=
  | StopAt (q : Qc)
  | StopNaN.

#[export] Instance Stop_eq_dec : EqDecision Stop.
Proof. solve_decision. Defined.

#[export] Instance Stop_countable : Countable Stop :=
  inj_countable'
    (λ s, match s with StopAt q => Some q | StopNaN => None end)
    (λ o, match o with Some q => StopAt q | None => StopNaN end)
    (λ s, match s with StopAt _ => eq_refl | StopNaN => eq_refl end).

Abbreviation Gradient := (gmap Stop string).

(** The radius option: a number, or a function of the sector and of the
    tile width and height. *)
Inductive Radius : Type :=
  | RadiusNumber (r : Q)
  | RadiusFunction (f : Sector → Q → Q → Q).

(** The fields of a layer that the modelled methods read or write. *)
Record t : Type := mk {
  tileWidth : Q;
  tileHeight : Q;
  _filter : GeographicalFilter.t;
  _intervalType : IntervalType;
  _scale : list string;
  _gradient : Gradient;
  _radius : Radius;
  _blur : Q;
  _incrementPerIntensity : Q;
  currentRetrievals : list string;
  absentResources : list string
}.
(* [currentRetrievals] holds the image paths being retrieved;
   [absentResources] stands for the absent-resource list of the framework,
   as the paths it reports absent. *)

(** The setter of [gradient]. *)
Definition set_gradient (this : t) (gradient : Gradient) : t :=
  mk (tileWidth this) (tileHeight this) (_filter this) (_intervalType this)
    (_scale this) gradient (_radius this) (_blur this)
    (_incrementPerIntensity this) (currentRetrievals this)
    (absentResources this).

(** Arrays of points live in a store and are passed by reference, so that
    a caller sees what a callee did to its array. *)
Abbreviation Ref := positive.
Abbreviation Store := (gmap positive (list MeasuredLocation)).

(** [list.forEach(function (item, index) {...})] with an accumulator and
    a callback that may throw; [index] is the index of the head of
    [l]. *)
Fixpoint forEachIndexed {A B : Type} (f : B → A → nat → Completion B)
    (l : list A) (index : nat) (acc : B) : Completion B :=
  match l with
  | [] => Return acc
  | x :: l' => acc' ← f acc x index; forEachIndexed f l' (S index) acc'
  end.

(** [index / scale.length] as a key. *)
Definition fraction (index length : nat) : Q :=
  (inject_Z (Z.of_nat index) / inject_Z (Z.of_nat length))%Q.

Definition stopOf (index length : nat) : Stop := StopAt (Q2Qc (fraction index length)).

(** The loop shared by the CONTINUOUS branch and by the fallback of the
    QUANTILES branch: [gradient[index / scale.length] = color]. *)
Definition continuousStops (scale : list string) (gradient : Gradient)
  : Completion Gradient :=
  forEachIndexed (λ gradient color index,
    Return (<[stopOf index (length scale) := color]> gradient)) scale 0%nat gradient.

(** The comparator handed to [data.sort] in [setGradient]. *)
Definition compareMeasures (item1 item2 : MeasuredLocation) : Z :=
  if Qlt_bool (measure item1) (measure item2) then -1
  else if Qlt_bool (measure item2) (measure item1) then 1
  else 0.

(** The loop of the QUANTILES branch.  A [MeasuredLocation] has no
    [intensity] property: [data[i].intensity] is [undefined] and
    [undefined / max] is [NaN], whatever [max] is.  [data[i]] itself must
    exist for the property read not to throw. *)
Definition quantileStops (scale : list string) (data : list MeasuredLocation)
    (max : Q) (gradient : Gradient) : Completion Gradient :=
  forEachIndexed (λ gradient color index,
    let fractionDecidingTheScale := fraction index (length scale) in
    let i := Qfloor (fractionDecidingTheScale * inject_Z (Z.of_nat (length data))) in
    match data !! Z.to_nat i with
    | None => Throw TypeError
    | Some _ => Return (<[StopNaN := color]> gradient)
    end) scale 0%nat gradient.

(** [setGradient(data)]; [data] is [None] when the method is called
    without an argument, as the setters below do, and a reference that the
    store does not hold is no array either.  The first component of the
    result is the store after the call. *)
Definition setGradient (this : t) (data : option Ref) (σ : Store)
  : Store * Completion t :=
  let scale := _scale this in
  match _intervalType this with
  | CONTINUOUS =>
      (σ, gradient ← continuousStops scale ∅; Return (set_gradient this gradient))
  | QUANTILES =>
      match data with
      | None => (σ, Throw TypeError)
      | Some ref =>
          match σ !! ref with
          | None => (σ, Throw TypeError)
          | Some points =>
              let sorted := JSArray.sort compareMeasures points in
              let σ' := <[ref := sorted]> σ in
              match last sorted with
              | None => (σ', Throw TypeError)
              | Some lastPoint =>
                  let max := measure lastPoint in
                  (σ',
                   gradient ←
                     (if (length scale <=? length sorted)%nat
                      then quantileStops scale sorted max ∅
                      else continuousStops scale ∅);
                   Return (set_gradient this gradient))
              end
          end
      end
  end.

(** The setters of [intervalType] and [scale] store the new value and
    rebuild the gradient with [this.setGradient()], that is without
    data. *)
Definition with_intervalType (this : t) (intervalType : IntervalType) : t :=
  mk (tileWidth this) (tileHeight this) (_filter this) intervalType
    (_scale this) (_gradient this) (_radius this) (_blur this)
    (_incrementPerIntensity this) (currentRetrievals this)
    (absentResources this).

Definition with_scale (this : t) (scale : list string) : t :=
  mk (tileWidth this) (tileHeight this) (_filter this) (_intervalType this)
    scale (_gradient this) (_radius this) (_blur this)
    (_incrementPerIntensity this) (currentRetrievals this)
    (absentResources this).

Definition set_intervalType (this : t) (intervalType : IntervalType) (σ : Store)
  : Store * Completion t :=
  setGradient (with_intervalType this intervalType) None σ.

Definition set_scale (this : t) (scale : list string) (σ : Store)
  : Store * Completion t :=
  setGradient (with_scale this scale) None σ.

(** The gradient a call of [setGradient] leaves in the layer. *)
Definition gradientOf (outcome : Store * Completion t) : Completion Gradient :=
  this ← snd outcome; Return (_gradient this).

Definition calculateRadius (this : t) (sector : Sector) : Q :=
  match _radius this with
  | RadiusNumber r => r
  | RadiusFunction f => f sector (tileWidth this) (tileHeight this)
  end.

Record Extended : Type := mkExtended {
  extendedSector : Sector;
  extensionFactor : Q
}.

Definition calculateExtendedSector (sector : Sector) : Extended :=
  let extensionFactor := 1%Q in
  let latitudeChange := ((maxLatitude sector - minLatitude sector) * extensionFactor)%Q in
  let longitudeChange := ((maxLongitude sector - minLongitude sector) * extensionFactor)%Q in
  mkExtended
    (mkSector (minLatitude sector - latitudeChange)%Q
       (maxLatitude sector + latitudeChange)%Q
       (minLongitude sector - longitudeChange)%Q
       (maxLongitude sector + longitudeChange)%Q)
    extensionFactor.

(** The tile of the tiled-image framework, as far as it is read here. *)
Record Tile : Type := mkTile {
  imagePath : string;
  sector : Sector
}.

(** The arguments of [createHeatMapTile(data, options)]. *)
Record TileOptions : Type := mkTileOptions {
  optSector : Sector;
  width : Q;
  height : Q;
  radius : Q;
  blur : Q;
  intensityGradient : Gradient;
  incrementPerIntensity : Q
}.

(** [retrieveTileImage] up to the call of [createHeatMapTile]: [None] when
    the tile is already being retrieved or is marked absent, otherwise the
    filtered data and the options handed to the tile renderer.  The canvas
    and texture work that follows is outside the model. *)
Definition retrieveTileImage (this : t) (tile : Tile)
  : Completion (option (list MeasuredLocation * TileOptions)) :=
  if bool_decide (imagePath tile ∈ currentRetrievals this) then Return None
  else if bool_decide (imagePath tile ∈ absentResources this) then Return None
  else
    let radius := calculateRadius this (sector tile) in
    let extended := calculateExtendedSector (sector tile) in
    let extendedWidth := Qceiling (extensionFactor extended * tileWidth this) in
    let extendedHeight := Qceiling (extensionFactor extended * tileHeight this) in
    data ← GeographicalFilter.filter (_filter this) (extendedSector extended);
    Return (Some (data,
      mkTileOptions (extendedSector extended)
        (tileWidth this + 2 * inject_Z extendedWidth)%Q
        (tileHeight this + 2 * inject_Z extendedHeight)%Q
        radius (_blur this) (_gradient this) (_incrementPerIntensity this))).

(** The assignments [layer.intervalType = intervalType] and
    [layer.scale = scale] as statements: the layer after the statement
    (the setter stores the value before it rebuilds the gradient, so the
    store has happened also when the rebuild throws), the store, and how
    the statement completed. *)
Definition assign_intervalType (this : t) (intervalType : IntervalType)
    (σ : Store) : t * Store * Completion unit :=
  let this' := with_intervalType this intervalType in
  match setGradient this' None σ with
  | (σ', Return this'') => (this'', σ', Return tt)
  | (σ', Throw e) => (this', σ', Throw e)
  end.

Definition assign_scale (this : t) (scale : list string) (σ : Store)
  : t * Store * Completion unit :=
  let this' := with_scale this scale in
  match setGradient this' None σ with
  | (σ', Return this'') => (this'', σ', Return tt)
  | (σ', Throw e) => (this', σ', Throw e)
  end.

(** The constructor [new HeatMapLayer(displayName, measuredLocations,
    usedDataStructure)].  [usedDataStructure] is [None] when the argument
    is omitted, and [usedDataStructure || "GRID"] replaces an omitted or
    empty string by ["GRID"].  The display name goes to a field that no
    modelled method reads and is not kept; [retrievals] and [absent] are
    what the constructor of the tiled-image framework leaves in the fields
    it owns.  Every array of the program is in the store. *)
Definition newLayer (displayName : string) (measuredLocations : Ref)
    (usedDataStructure : option string) (retrievals absent : list string)
    (σ : Store) : Store * Completion t :=
  let usedDataStructure :=
    match usedDataStructure with
    | Some s => if bool_decide (s = "") then "GRID" else s
    | None => "GRID"
    end in
  match σ !! measuredLocations with
  | None => (σ, Throw TypeError)
  | Some points =>
      match GeographicalFilter.new points usedDataStructure with
      | Throw e => (σ, Throw e)
      | Return filter =>
          setGradient
            (mk 512 512 filter CONTINUOUS
               ["blue"; "cyan"; "lime"; "yellow"; "red"] ∅
               (RadiusNumber 25) 10 0.025 retrievals absent)
            (Some measuredLocations) σ
      end
  end.

End HeatMapLayer.

(** * Properties *)

Import GeographicalFilter HeatMapLayer.

(** ** Specification predicates *)

(** A cell index of the grid. *)
Definition cellRange (lat lon : Z) : Prop := -90 ≤ lat ≤ 90 ∧ -180 ≤ lon ≤ 180.

#[export] Instance cellRange_dec lat lon : Decision (cellRange lat lon).
Proof. unfold cellRange. apply _. Defined.

(** A point whose floored coordinates name a cell of the grid. *)
Definition inGrid (p : MeasuredLocation) : Prop :=
  cellRange (Qfloor (latitude p)) (Qfloor (longitude p)).

#[export] Instance inGrid_dec p : Decision (inGrid p).
Proof. unfold inGrid. apply _. Defined.

(** The points of [P] that [createGrid] puts in cell [(lat, lon)], in the
    order of [P]. *)
Definition cellPoints (P : list MeasuredLocation) (lat lon : Z)
  : list MeasuredLocation :=
  List.filter (λ p, (Qfloor (latitude p) =? lat) && (Qfloor (longitude p) =? lon)) P.

(** [data] is the grid of the points [P]: exactly the cells -90..90 by
    -180..180 exist, and each holds its points. *)
Definition gridOf (data : Grid) (P : list MeasuredLocation) : Prop :=
  ∀ lat lon,
    data !! lat ≫= (.!! lon) =
    if bool_decide (cellRange lat lon)
    then Some (cellPoints P lat lon) else None.

(** The points of [P] in the cells [lats] by [lons], in the order the
    nested cell loops of [grid] meet them. *)
Definition cellsPoints (P : list MeasuredLocation) (lats lons : list Z)
  : list MeasuredLocation :=
  flat_map (λ lat, flat_map (λ lon, cellPoints P lat lon) lons) lats.

(** The two queries of the unit tests. *)
Definition standardSector : Sector := mkSector 20 30 150 160.
Definition antimeridianSector : Sector := mkSector (-30) 30 (-225) (-160).

(** A query that wraps on both sides of the antimeridian. *)
Definition bothWrapSector : Sector := mkSector (-30) 30 (-225) 200.

(** The copies of the points of [P] inside [sector], in the order of [P],
    each moved by [d] degrees of longitude and otherwise unchanged. *)
Definition shiftedCopies (d : Q) (sector : Sector) (P : list MeasuredLocation)
  : list MeasuredLocation :=
  map (λ e, mkMeasuredLocation (latitude e) (d + longitude e) (measure e))
    (List.filter (λ e, containsLocation sector (latitude e) (longitude e)) P).

(** Queries whose longitude bounds pass the antimeridian by half a
    degree. *)
Definition halfDegreeBefore : Sector := mkSector 0 10 (-180.5) 0.
Definition halfDegreeAfter : Sector := mkSector 0 10 0 180.5.

(** A point two tenths of a degree east of the antimeridian, and its
    mirror image two tenths west of it. *)
Definition eastOfAntimeridian : list MeasuredLocation :=
  [mkMeasuredLocation 5 (-179.8) 1].
Definition westOfAntimeridian : list MeasuredLocation :=
  [mkMeasuredLocation 5 179.8 1].

(** Two points of equal latitude, the eastern one first; two such points
    of one grid cell; and a query that contains them all. *)
Definition tiedPoints : list MeasuredLocation :=
  [mkMeasuredLocation 0 5 1; mkMeasuredLocation 0 1 1].
Definition tiedCellPoints : list MeasuredLocation :=
  [mkMeasuredLocation 0 0.5 1; mkMeasuredLocation 0 0.25 1].
Definition smallSector : Sector := mkSector (-10) 10 (-10) 10.

(** A point east of the last longitude cell of the grid. *)
Definition eastOfGrid : list MeasuredLocation := [mkMeasuredLocation 0 181 1].

(** The longitudes of the reference query in ascending order. *)
Definition ascendingLongitudes : list Q :=
  [-210; -205; -200; -195; -190; -185; -180.1; -179.9; -175; -170; -165; -160]%Q.

(** The longitudes and latitudes of the reference query in the order
    the unit test of [grid] lists them. *)
Definition referenceLongitudes : list Q :=
  [-160; -165; -170; -175; -179.9; -180.1; -185; -190; -195; -200; -205; -210]%Q.
Definition referenceLatitudes : list Q :=
  [-25; -20; -15; -10; -5; 0; 5; 10; 15; 20; 25; 30]%Q.

(** A layer with the values its constructor gives to the tile size, the
    interval type, the scale, the radius, the blur and the increment, over
    an ARRAY filter of the reference points and before a gradient is set;
    and the same layer with quantile intervals. *)
Definition referenceLayer : HeatMapLayer.t :=
  HeatMapLayer.mk 512 512 (ArrayFilter locationsToUseForTest)
    HeatMapLayer.CONTINUOUS ["blue"; "cyan"; "lime"; "yellow"; "red"] ∅
    (HeatMapLayer.RadiusNumber 25) 10 0.025 [] [].

Definition quantilesLayer : HeatMapLayer.t :=
  HeatMapLayer.with_intervalType referenceLayer HeatMapLayer.QUANTILES.

(** Three points whose measures are not in ascending order. *)
Definition unsortedMeasures : list MeasuredLocation :=
  [mkMeasuredLocation 0 0 3; mkMeasuredLocation 1 1 1; mkMeasuredLocation 2 2 2].

(** A tile of the first level of the pyramid. *)
Definition referenceTile : HeatMapLayer.Tile :=
  HeatMapLayer.mkTile "0/0/0" (mkSector 0 45 (-180) (-135)).

(** The tile of that level that ends at the antimeridian; ten of the
    reference points lie in its sector. *)
Definition easternTile : HeatMapLayer.Tile :=
  HeatMapLayer.mkTile "0/0/7" (mkSector 0 45 135 180).

(** The comparator of latitudes alone. *)
Definition compareLatitudes (elm1 elm2 : MeasuredLocation) : Z :=
  if Qlt_bool (latitude elm2) (latitude elm1) then 1
  else if Qlt_bool (latitude elm1) (latitude elm2) then -1
  else 0.

(** Ascending by latitude, and by longitude among equal latitudes: the
    order the documentation of [filter] promises. *)
Definition latLonLe (a b : MeasuredLocation) : Prop :=
  (latitude a < latitude b)%Q
  ∨ ((latitude a == latitude b)%Q ∧ (longitude a <= longitude b)%Q).

Definition latitudeLe (a b : MeasuredLocation) : Prop :=
  (latitude a <= latitude b)%Q.

Definition measureLe (a b : MeasuredLocation) : Prop :=
  (measure a <= measure b)%Q.

(** A query that reaches more than a full turn west of the antimeridian,
    and one that reaches exactly a full turn. *)
Definition beyondFullTurnSector : Sector := mkSector (-30) 30 (-541) (-160).
Definition fullTurnSector : Sector := mkSector (-30) 30 (-540) (-160).

(** The containment test of a sector as a filter on points. *)
Definition inSector (s : Sector) (p : MeasuredLocation) : bool :=
  containsLocation s (latitude p) (longitude p).

(** The points of latitude [c]. *)
Definition atLatitude (c : Q) (p : MeasuredLocation) : bool :=
  Qeq_bool (latitude p) c.

(** What a filter was built from: the array itself, or a grid of it. *)
Definition builtFrom (this : GeographicalFilter.t) (P : list MeasuredLocation)
  : Prop :=
  match this with
  | ArrayFilter data => data = P
  | GridFilter data => gridOf data P ∧ Forall inGrid P
  end.

(** The points the passes of a query collect, before [filter] sorts
    them. *)
Definition collected (this : GeographicalFilter.t) (s : Sector)
  : Completion (list MeasuredLocation) :=
  match this with
  | GridFilter data => grid data s
  | ArrayFilter data => Return (array data s)
  end.

(** The points the three passes of [grid] push, on a grid of [P]. *)
Definition gridPrimaryPoints (P : list MeasuredLocation) (s : Sector)
  : list MeasuredLocation :=
  flat_map (keepIn s)
    (cellsPoints P (fromTo (scanMinLatitude s) (scanMaxLatitude s))
       (fromTo (scanMinLongitude s) (scanMaxLongitude s))).

Definition gridBeforeCopies (P : list MeasuredLocation) (s : Sector)
  : list MeasuredLocation :=
  if bool_decide (extraLongitudeBefore s ≠ 0) then
    flat_map (shiftIn (gridBeforeSector s) (-360))
      (cellsPoints P (fromTo (scanMinLatitude s) (scanMaxLatitude s))
         (fromTo (180 - extraLongitudeBefore s) 180))
  else [].

Definition gridAfterCopies (P : list MeasuredLocation) (s : Sector)
  : list MeasuredLocation :=
  if bool_decide (extraLongitudeAfter s ≠ 0) then
    flat_map (shiftIn (gridAfterSector s) 360)
      (cellsPoints P (fromTo (scanMinLatitude s) (scanMaxLatitude s))
         (fromTo (-180) (-180 + extraLongitudeAfter s)))
  else [].

(** [q] is a point of [P] moved by -360 degrees of longitude into the
    box from the floored west bound of [s] to -180, within the floored
    latitude bounds of [s]. *)
Definition westCopy (P : list MeasuredLocation) (s : Sector)
    (q : MeasuredLocation) : Prop :=
  ∃ e, e ∈ P
    ∧ q = mkMeasuredLocation (latitude e) (-360 + longitude e) (measure e)
    ∧ (inject_Z (Qfloor (minLongitude s)) <= longitude q)%Q
    ∧ (longitude q <= -180)%Q
    ∧ (inject_Z (Qfloor (minLatitude s)) <= latitude q)%Q
    ∧ (latitude q <= inject_Z (Qfloor (maxLatitude s)))%Q.

(** The same to the east: moved by +360 degrees into the box from 180 to
    the floored east bound of [s]. *)
Definition eastCopy (P : list MeasuredLocation) (s : Sector)
    (q : MeasuredLocation) : Prop :=
  ∃ e, e ∈ P
    ∧ q = mkMeasuredLocation (latitude e) (360 + longitude e) (measure e)
    ∧ (180 <= longitude q)%Q
    ∧ (longitude q <= inject_Z (Qfloor (maxLongitude s)))%Q
    ∧ (inject_Z (Qfloor (minLatitude s)) <= latitude q)%Q
    ∧ (latitude q <= inject_Z (Qfloor (maxLatitude s)))%Q.

(** The default scale of a layer. *)
Definition defaultScale : list string := ["blue"; "cyan"; "lime"; "yellow"; "red"].

(** Replaces the closed right-hand side of an equation [H] by its value. *)
Ltac evaluate_rhs H :=
  match type of H with
  | _ = ?r =>
      let v := eval vm_compute in r in
      let E := fresh in
      assert (r = v) as E by (vm_compute; reflexivity);
      rewrite E in H; clear E
  end.

(** ** Completions *)

Lemma bind_Return {A B : Type} (f : A → Completion B) (a : A) :
  (x ← Return a; f x) = f a.
Proof. reflexivity. Qed.

Lemma bind_Throw {A B : Type} (f : A → Completion B) (e : JSError) :
  (x ← Throw e; f x) = Throw e.
Proof. reflexivity. Qed.

(** ** Numbers *)

Lemma Qlt_bool_iff (x y : Q) : Qlt_bool x y = true ↔ (x < y)%Q.
Proof.
  unfold Qlt_bool. rewrite negb_true_iff.
  destruct (Qle_bool y x) eqn:E.
  - apply Qle_bool_iff in E. split; [discriminate|].
    intros H. exfalso. exact (Qlt_not_le _ _ H E).
  - split; [intros _|reflexivity].
    apply Qnot_le_lt. intros H. apply Qle_bool_iff in H. congruence.
Qed.

Lemma containsLocation_iff (s : Sector) (lat lon : Q) :
  containsLocation s lat lon = true ↔
  (minLatitude s <= lat)%Q ∧ (lat <= maxLatitude s)%Q
  ∧ (minLongitude s <= lon)%Q ∧ (lon <= maxLongitude s)%Q.
Proof.
  unfold containsLocation. rewrite !andb_true_iff, !Qle_bool_iff. tauto.
Qed.

Lemma elem_of_fromTo (lo hi x : Z) : x ∈ fromTo lo hi ↔ lo ≤ x ≤ hi.
Proof. unfold fromTo. rewrite elem_of_seqZ. lia. Qed.

(** ** The sort *)

Section sort.
Context {A : Type} (comparefn : A → A → Z).

Lemma insertLast_Permutation (x : A) (r : list A) :
  JSArray.insertLast comparefn x r ≡ₚ x :: r.
Proof.
  induction r as [|y r IH]; simpl; [done|].
  destruct (comparefn x y <? 0); [|done].
  rewrite IH. apply Permutation_swap.
Qed.

Lemma sort_run_Permutation (l acc : list A) :
  foldl (λ r x, JSArray.insertLast comparefn x r) acc l ≡ₚ l ++ acc.
Proof.
  revert acc. induction l as [|x l IH]; intros acc; simpl; [done|].
  rewrite IH, insertLast_Permutation. by rewrite Permutation_middle.
Qed.

(** The sort only rearranges the array. *)
Lemma sort_Permutation (l : list A) : JSArray.sort comparefn l ≡ₚ l.
Proof.
  unfold JSArray.sort. rewrite reverse_Permutation.
  rewrite sort_run_Permutation. by rewrite app_nil_r.
Qed.

(** When the comparator answers "less" exactly on a strict order given by
    a numeric key, the result is ascending in that key. *)
Context (key : A → Q).
Hypothesis comparefn_lt : ∀ x y, comparefn x y < 0 ↔ (key x < key y)%Q.

Let keyGe (a b : A) : Prop := (key b <= key a)%Q.
Let keyLe (a b : A) : Prop := (key a <= key b)%Q.

Lemma insertLast_descending (x : A) (r : list A) :
  StronglySorted keyGe r → StronglySorted keyGe (JSArray.insertLast comparefn x r).
Proof.
  induction 1 as [|y r Hr IH Hy]; simpl.
  - repeat constructor.
  - destruct (Z.ltb_spec (comparefn x y) 0) as [Hlt|Hge].
    + constructor; [exact IH|].
      rewrite insertLast_Permutation. constructor; [|exact Hy].
      apply comparefn_lt in Hlt. unfold keyGe. by apply Qlt_le_weak.
    + assert (Hxy : (key y <= key x)%Q).
      { apply Qnot_lt_le. intros Hlt. apply comparefn_lt in Hlt. lia. }
      constructor; [by constructor|].
      constructor; [exact Hxy|].
      eapply Forall_impl; [exact Hy|].
      intros z Hz. unfold keyGe in *. by eapply Qle_trans.
Qed.

Lemma sort_run_descending (l acc : list A) :
  StronglySorted keyGe acc →
  StronglySorted keyGe (foldl (λ r x, JSArray.insertLast comparefn x r) acc l).
Proof.
  revert acc. induction l as [|x l IH]; intros acc Hacc; simpl; [done|].
  apply IH. by apply insertLast_descending.
Qed.

Lemma descending_rev (r : list A) :
  StronglySorted keyGe r → StronglySorted keyLe (reverse r).
Proof.
  induction 1 as [|y r Hr IH Hy]; [constructor|].
  rewrite reverse_cons. apply StronglySorted_app_2; [|exact IH|repeat constructor].
  intros a b Ha Hb. apply list_elem_of_singleton in Hb as ->.
  rewrite elem_of_reverse in Ha. rewrite Forall_forall in Hy. exact (Hy a Ha).
Qed.

Lemma sort_ascending (l : list A) :
  StronglySorted keyLe (JSArray.sort comparefn l).
Proof.
  unfold JSArray.sort. apply descending_rev, sort_run_descending. constructor.
Qed.
End sort.

(** Only the test [comparefn(x, y) < 0] reaches the sort. *)
Lemma sort_ext {A : Type} (comparefn1 comparefn2 : A → A → Z) (l : list A) :
  (∀ x y, (comparefn1 x y <? 0) = (comparefn2 x y <? 0)) →
  JSArray.sort comparefn1 l = JSArray.sort comparefn2 l.
Proof.
  intros Hext. unfold JSArray.sort. f_equal.
  assert (∀ x r, JSArray.insertLast comparefn1 x r = JSArray.insertLast comparefn2 x r)
    as Hins.
  { intros x r. induction r as [|y r IH]; [done|].
    simpl. rewrite Hext, IH. done. }
  generalize (@nil A). induction l as [|x l IH]; intros acc; [done|].
  simpl. rewrite Hins. apply IH.
Qed.

(** ** The grid *)

Lemma foldl_insert_lookup {V : Type} (v : V) (ks : list Z) (m : gmap Z V) (i : Z) :
  foldl (λ m k, <[k := v]> m) m ks !! i
  = if bool_decide (i ∈ ks) then Some v else m !! i.
Proof.
  revert m. induction ks as [|k ks IH]; intros m; simpl; [done|].
  rewrite IH. destruct (decide (i ∈ ks)) as [Hi|Hi].
  - rewrite !bool_decide_eq_true_2; [done|by apply list_elem_of_further|done].
  - rewrite (bool_decide_eq_false_2 _ Hi).
    destruct (decide (k = i)) as [->|Hne].
    + rewrite lookup_insert_eq, bool_decide_eq_true_2; [done|apply list_elem_of_here].
    + rewrite lookup_insert_ne, bool_decide_eq_false_2; [done| |done].
      rewrite elem_of_cons. intros [->|?]; done.
Qed.

Lemma emptyRow_lookup (lon : Z) :
  emptyRow !! lon = if bool_decide (-180 ≤ lon ≤ 180) then Some [] else None.
Proof.
  unfold emptyRow. rewrite foldl_insert_lookup, lookup_empty.
  by rewrite (bool_decide_ext _ _ (elem_of_fromTo _ _ _)).
Qed.

Lemma emptyGrid_lookup (lat : Z) :
  emptyGrid !! lat = if bool_decide (-90 ≤ lat ≤ 90) then Some emptyRow else None.
Proof.
  unfold emptyGrid. rewrite foldl_insert_lookup, lookup_empty.
  by rewrite (bool_decide_ext _ _ (elem_of_fromTo _ _ _)).
Qed.

Lemma gridOf_emptyGrid : gridOf emptyGrid [].
Proof.
  intros lat lon. rewrite emptyGrid_lookup.
  unfold cellRange.
  repeat case_bool_decide; simpl; try rewrite emptyRow_lookup;
    repeat case_bool_decide; simpl; try done; lia.
Qed.

Lemma cellPoints_snoc (P : list MeasuredLocation) (m : MeasuredLocation) (lat lon : Z) :
  cellPoints (P ++ [m]) lat lon
  = cellPoints P lat lon
    ++ (if bool_decide (Qfloor (latitude m) = lat ∧ Qfloor (longitude m) = lon)
        then [m] else []).
Proof.
  unfold cellPoints. rewrite List.filter_app. f_equal. simpl.
  case_bool_decide as H.
  - destruct H as [-> ->]. by rewrite !Z.eqb_refl.
  - destruct (Z.eqb_spec (Qfloor (latitude m)) lat),
      (Z.eqb_spec (Qfloor (longitude m)) lon); simpl; try done. tauto.
Qed.

Lemma elem_of_cellPoints (P : list MeasuredLocation) (lat lon : Z) (p : MeasuredLocation) :
  p ∈ cellPoints P lat lon
  ↔ p ∈ P ∧ Qfloor (latitude p) = lat ∧ Qfloor (longitude p) = lon.
Proof.
  unfold cellPoints. rewrite !list_elem_of_In, List.filter_In, andb_true_iff.
  rewrite !Z.eqb_eq. tauto.
Qed.

(** Reading a cell of the grid of [P]. *)
Lemma gridOf_lookup (data : Grid) (P : list MeasuredLocation) (lat lon : Z) :
  gridOf data P → -90 ≤ lat ≤ 90 → -180 ≤ lon ≤ 180 →
  ∃ row, data !! lat = Some row ∧ row !! lon = Some (cellPoints P lat lon).
Proof.
  intros Hg Hlat Hlon. specialize (Hg lat lon).
  rewrite bool_decide_eq_true_2 in Hg by (by split).
  destruct (data !! lat) as [row|]; simpl in Hg; [|done]. by exists row.
Qed.

Lemma cellAt_gridOf (data : Grid) (P : list MeasuredLocation) (lat lon : Z) :
  gridOf data P →
  cellAt data lat lon
  = if bool_decide (cellRange lat lon)
    then Return (cellPoints P lat lon) else Throw TypeError.
Proof.
  intros Hg. specialize (Hg lat lon). unfold cellAt.
  destruct (data !! lat) as [row|]; simpl in Hg.
  - rewrite Hg. by case_bool_decide.
  - by case_bool_decide.
Qed.

Lemma pushMeasured_inGrid (data : Grid) (P : list MeasuredLocation) (m : MeasuredLocation) :
  gridOf data P → inGrid m →
  ∃ data', pushMeasured data m = Return data' ∧ gridOf data' (P ++ [m]).
Proof.
  intros Hg [Hlat Hlon]. unfold pushMeasured.
  destruct (gridOf_lookup _ _ _ _ Hg Hlat Hlon) as (row & Hrow & Hcell).
  rewrite Hrow, Hcell. eexists; split; [done|].
  intros lat lon. rewrite cellPoints_snoc.
  destruct (decide (Qfloor (latitude m) = lat)) as [<-|Hne].
  - rewrite lookup_insert_eq. simpl.
    destruct (decide (Qfloor (longitude m) = lon)) as [<-|Hne'].
    + rewrite lookup_insert_eq.
      rewrite !bool_decide_eq_true_2 by done. done.
    + rewrite lookup_insert_ne by done.
      specialize (Hg (Qfloor (latitude m)) lon). rewrite Hrow in Hg. simpl in Hg.
      rewrite Hg. rewrite (bool_decide_eq_false_2 (_ = _ ∧ _)) by tauto.
      by rewrite app_nil_r.
  - rewrite lookup_insert_ne by done. rewrite Hg.
    rewrite (bool_decide_eq_false_2 (_ = _ ∧ _)) by tauto.
    by rewrite app_nil_r.
Qed.

Lemma pushMeasured_not_inGrid (data : Grid) (P : list MeasuredLocation) (m : MeasuredLocation) :
  gridOf data P → ¬ inGrid m → pushMeasured data m = Throw TypeError.
Proof.
  intros Hg Hm. unfold pushMeasured.
  specialize (Hg (Qfloor (latitude m)) (Qfloor (longitude m))).
  rewrite bool_decide_eq_false_2 in Hg by exact Hm.
  destruct (data !! Qfloor (latitude m)) as [row|]; simpl in Hg; [|done].
  by rewrite Hg.
Qed.

Lemma forEach_pushMeasured (l P : list MeasuredLocation) (data : Grid) :
  gridOf data P →
  if bool_decide (Forall inGrid l)
  then ∃ data', forEach pushMeasured l data = Return data' ∧ gridOf data' (P ++ l)
  else forEach pushMeasured l data = Throw TypeError.
Proof.
  revert P data. induction l as [|m l IH]; intros P data Hg.
  - rewrite bool_decide_eq_true_2 by constructor. exists data. by rewrite app_nil_r.
  - simpl. destruct (decide (inGrid m)) as [Hm|Hm].
    + destruct (pushMeasured_inGrid _ _ _ Hg Hm) as (data' & -> & Hg'). simpl.
      specialize (IH _ _ Hg'). rewrite <- app_assoc in IH. simpl in IH.
      case_bool_decide as Hl.
      * rewrite bool_decide_eq_true_2 by (by constructor). exact IH.
      * rewrite bool_decide_eq_false_2; [exact IH|]. by inv 1.
    + rewrite (pushMeasured_not_inGrid _ _ _ Hg Hm). simpl.
      rewrite bool_decide_eq_false_2; [done|]. by inv 1.
Qed.

(** [createGrid] succeeds exactly on point sets that fit the grid, and
    then returns their grid. *)
Lemma createGrid_inGrid (P : list MeasuredLocation) :
  Forall inGrid P → ∃ data, createGrid P = Return data ∧ gridOf data P.
Proof.
  intros HP. pose proof (forEach_pushMeasured P [] emptyGrid gridOf_emptyGrid) as H.
  by rewrite bool_decide_eq_true_2 in H by done.
Qed.

Lemma createGrid_not_inGrid (P : list MeasuredLocation) :
  ¬ Forall inGrid P → createGrid P = Throw TypeError.
Proof.
  intros HP. pose proof (forEach_pushMeasured P [] emptyGrid gridOf_emptyGrid) as H.
  by rewrite bool_decide_eq_false_2 in H by done.
Qed.

Lemma createGrid_Return (P : list MeasuredLocation) (data : Grid) :
  createGrid P = Return data → Forall inGrid P ∧ gridOf data P.
Proof.
  intros H. destruct (decide (Forall inGrid P)) as [HP|HP].
  - split; [done|]. destruct (createGrid_inGrid P HP) as (data' & H' & Hg).
    rewrite H in H'. by injection H' as ->.
  - rewrite (createGrid_not_inGrid P HP) in H. done.
Qed.

(** ** The cell loops *)

Lemma scan_row (data : Grid) (P : list MeasuredLocation) (lat : Z)
    (emit : MeasuredLocation → list MeasuredLocation)
    (lons : list Z) (result : list MeasuredLocation) :
  gridOf data P →
  forEach (λ result lon,
    cell ← cellAt data lat lon; Return (result ++ flat_map emit cell)) lons result
  = if bool_decide (Forall (cellRange lat) lons)
    then Return (result ++ flat_map emit (flat_map (λ lon, cellPoints P lat lon) lons))
    else Throw TypeError.
Proof.
  intros Hg. revert result. induction lons as [|lon lons IH]; intros result.
  - cbn [forEach flat_map]. rewrite bool_decide_eq_true_2 by constructor.
    by rewrite app_nil_r.
  - cbn [forEach flat_map]. rewrite (cellAt_gridOf _ P) by done.
    destruct (decide (cellRange lat lon)) as [Hc|Hc].
    + rewrite (bool_decide_eq_true_2 _ Hc), !bind_Return, IH.
      rewrite flat_map_app, app_assoc.
      destruct (decide (Forall (cellRange lat) lons)) as [Hl|Hl].
      * rewrite !bool_decide_eq_true_2; [done|by constructor|done].
      * rewrite !bool_decide_eq_false_2; [done|by inv 1|done].
    + rewrite (bool_decide_eq_false_2 _ Hc), bind_Throw.
      rewrite bool_decide_eq_false_2; [done|by inv 1].
Qed.

(** The cell loops return the emissions of the visited cells, in visiting
    order, and throw when a visited cell is not a cell of the grid. *)
Lemma scan_gridOf (data : Grid) (P : list MeasuredLocation)
    (emit : MeasuredLocation → list MeasuredLocation)
    (lats lons : list Z) (result : list MeasuredLocation) :
  gridOf data P →
  scan data lats lons emit result
  = if bool_decide (Forall (λ lat, Forall (cellRange lat) lons) lats)
    then Return (result ++ flat_map emit (cellsPoints P lats lons))
    else Throw TypeError.
Proof.
  intros Hg. unfold scan, cellsPoints. revert result.
  induction lats as [|lat lats IH]; intros result.
  - cbn [forEach flat_map]. rewrite bool_decide_eq_true_2 by constructor.
    by rewrite app_nil_r.
  - cbn [forEach flat_map]. rewrite (scan_row _ P) by done.
    destruct (decide (Forall (cellRange lat) lons)) as [Hc|Hc].
    + rewrite (bool_decide_eq_true_2 _ Hc), bind_Return, IH.
      rewrite flat_map_app, app_assoc.
      destruct (decide (Forall (λ lat, Forall (cellRange lat) lons) lats)) as [Hl|Hl].
      * rewrite !bool_decide_eq_true_2; [done|by constructor|done].
      * rewrite !bool_decide_eq_false_2; [done|by inv 1|done].
    + rewrite (bool_decide_eq_false_2 _ Hc), bind_Throw.
      rewrite bool_decide_eq_false_2; [done|by inv 1].
Qed.

Lemma elem_of_flat_map {A B : Type} (f : A → list B) (l : list A) (y : B) :
  y ∈ flat_map f l ↔ ∃ x, x ∈ l ∧ y ∈ f x.
Proof.
  rewrite list_elem_of_In, in_flat_map. setoid_rewrite list_elem_of_In. done.
Qed.

Lemma elem_of_cellsPoints (P : list MeasuredLocation) (lats lons : list Z)
    (p : MeasuredLocation) :
  p ∈ cellsPoints P lats lons
  ↔ p ∈ P ∧ Qfloor (latitude p) ∈ lats ∧ Qfloor (longitude p) ∈ lons.
Proof.
  unfold cellsPoints. rewrite elem_of_flat_map.
  setoid_rewrite elem_of_flat_map. setoid_rewrite elem_of_cellPoints.
  split.
  - intros (lat & Hlat & lon & Hlon & Hp & <- & <-). done.
  - intros (Hp & Hlat & Hlon). eauto 10.
Qed.

Lemma elem_of_shiftIn (s : Sector) (shift : Q) (e q : MeasuredLocation) :
  q ∈ shiftIn s shift e
  ↔ q = shifted shift e ∧ containsLocation s (latitude e) (longitude e) = true.
Proof.
  unfold shiftIn. destruct (containsLocation _ _ _).
  - rewrite list_elem_of_singleton. tauto.
  - rewrite elem_of_nil. split; [done|]. by intros [_ ?].
Qed.

(** *** Bounds of the loops *)

Lemma scanLatitude_range (s : Sector) (lat : Z) :
  lat ∈ fromTo (scanMinLatitude s) (scanMaxLatitude s) → -90 ≤ lat ≤ 90.
Proof.
  rewrite elem_of_fromTo. unfold scanMinLatitude, scanMaxLatitude.
  destruct (Z.leb_spec (flooredMinLatitude s) (-90)),
    (Z.geb_spec (flooredMaxLatitude s) 90); lia.
Qed.

Lemma scanLongitude_range (s : Sector) (lon : Z) :
  lon ∈ fromTo (scanMinLongitude s) (scanMaxLongitude s) → -180 ≤ lon ≤ 180.
Proof.
  rewrite elem_of_fromTo. unfold scanMinLongitude, scanMaxLongitude.
  destruct (Z.leb_spec (flooredMinLongitude s) (-180)),
    (Z.geb_spec (flooredMaxLongitude s) 180); lia.
Qed.

Lemma extraLongitudeBefore_eq (s : Sector) :
  extraLongitudeBefore s = Z.max 0 (-180 - Qfloor (minLongitude s)).
Proof.
  unfold extraLongitudeBefore, flooredMinLongitude.
  destruct (Z.leb_spec (Qfloor (minLongitude s)) (-180)); lia.
Qed.

Lemma extraLongitudeAfter_eq (s : Sector) :
  extraLongitudeAfter s = Z.max 0 (Qfloor (maxLongitude s) - 180).
Proof.
  unfold extraLongitudeAfter, flooredMaxLongitude.
  destruct (Z.geb_spec (Qfloor (maxLongitude s)) 180); lia.
Qed.

(** The primary pass of [grid] never throws on a grid made by
    [createGrid]. *)
Lemma gridPrimaryPass_gridOf (data : Grid) (P : list MeasuredLocation)
    (s : Sector) (result : list MeasuredLocation) :
  gridOf data P →
  gridPrimaryPass data s result
  = Return (result ++ flat_map (keepIn s)
      (cellsPoints P (fromTo (scanMinLatitude s) (scanMaxLatitude s))
         (fromTo (scanMinLongitude s) (scanMaxLongitude s)))).
Proof.
  intros Hg. unfold gridPrimaryPass. rewrite (scan_gridOf _ P) by done.
  rewrite bool_decide_eq_true_2; [done|].
  apply Forall_forall. intros lat Hlat. apply Forall_forall. intros lon Hlon.
  split; [by eapply scanLatitude_range|by eapply scanLongitude_range].
Qed.

(** A point of the grid that the sector contains lies in a cell that the
    primary pass of [grid] visits. *)
Lemma contained_cell_scanned (s : Sector) (e : MeasuredLocation) :
  inGrid e → containsLocation s (latitude e) (longitude e) = true →
  Qfloor (latitude e) ∈ fromTo (scanMinLatitude s) (scanMaxLatitude s)
  ∧ Qfloor (longitude e) ∈ fromTo (scanMinLongitude s) (scanMaxLongitude s).
Proof.
  intros [Hlat Hlon] (H1 & H2 & H3 & H4)%containsLocation_iff.
  apply Qfloor_resp_le in H1, H2, H3, H4.
  rewrite !elem_of_fromTo.
  unfold scanMinLatitude, scanMaxLatitude, scanMinLongitude, scanMaxLongitude,
    flooredMinLatitude, flooredMaxLatitude, flooredMinLongitude, flooredMaxLongitude.
  destruct (Z.leb_spec (Qfloor (minLatitude s)) (-90)),
    (Z.geb_spec (Qfloor (maxLatitude s)) 90),
    (Z.leb_spec (Qfloor (minLongitude s)) (-180)),
    (Z.geb_spec (Qfloor (maxLongitude s)) 180); lia.
Qed.

(** One more stored point adds itself to the points of the scanned cells
    when its cell is scanned, and nothing otherwise. *)
Lemma row_points_cons (m : MeasuredLocation) (P : list MeasuredLocation)
    (lat : Z) (lons : list Z) :
  NoDup lons →
  flat_map (λ lon, cellPoints (m :: P) lat lon) lons
  ≡ₚ (if bool_decide (Qfloor (latitude m) = lat ∧ Qfloor (longitude m) ∈ lons)
      then [m] else [])
     ++ flat_map (λ lon, cellPoints P lat lon) lons.
Proof.
  induction 1 as [|lon lons Hlon Hnd IH].
  - cbn [flat_map]. rewrite bool_decide_eq_false_2; [done|].
    intros [_ H]. by apply elem_of_nil in H.
  - cbn [flat_map]. rewrite IH. unfold cellPoints at 1. cbn [List.filter].
    fold (cellPoints P lat lon).
    destruct (Z.eqb_spec (Qfloor (latitude m)) lat) as [Hlat|Hlat]; cbn [andb].
    + destruct (Z.eqb_spec (Qfloor (longitude m)) lon) as [Hm|Hm].
      * rewrite (bool_decide_eq_true_2 (_ ∧ _ ∈ lon :: lons))
          by (split; [done|rewrite Hm; apply list_elem_of_here]).
        rewrite (bool_decide_eq_false_2 (_ ∧ _ ∈ lons))
          by (intros [_ H]; by rewrite Hm in H).
        done.
      * destruct (decide (Qfloor (longitude m) ∈ lons)) as [Hin|Hin].
        -- rewrite !bool_decide_eq_true_2
             by (split; [done|by (try apply list_elem_of_further)]).
           cbn [app]. by rewrite <- Permutation_middle.
        -- rewrite !bool_decide_eq_false_2; [done| |by intros [_ ?]].
           intros [_ [?|?]%elem_of_cons]; done.
    + rewrite !bool_decide_eq_false_2 by (by intros [? _]). done.
Qed.

Lemma cellsPoints_cons (m : MeasuredLocation) (P : list MeasuredLocation)
    (lats lons : list Z) :
  NoDup lats → NoDup lons →
  cellsPoints (m :: P) lats lons
  ≡ₚ (if bool_decide (Qfloor (latitude m) ∈ lats ∧ Qfloor (longitude m) ∈ lons)
      then [m] else [])
     ++ cellsPoints P lats lons.
Proof.
  intros Hlats Hlons. unfold cellsPoints.
  induction Hlats as [|lat lats Hlat Hnd IH].
  - cbn [flat_map]. rewrite bool_decide_eq_false_2; [done|].
    intros [H _]. by apply elem_of_nil in H.
  - cbn [flat_map]. rewrite IH, (row_points_cons m P lat lons Hlons).
    destruct (decide (Qfloor (longitude m) ∈ lons)) as [Hin|Hin];
      [|rewrite !bool_decide_eq_false_2 by (by intros [_ ?]); done].
    destruct (decide (Qfloor (latitude m) = lat)) as [Hm|Hm].
    + rewrite (bool_decide_eq_true_2 (_ = _ ∧ _)) by done.
      rewrite (bool_decide_eq_true_2 (_ ∈ lat :: lats ∧ _))
        by (split; [rewrite Hm; apply list_elem_of_here|done]).
      rewrite (bool_decide_eq_false_2 (_ ∈ lats ∧ _))
        by (intros [H _]; by rewrite Hm in H).
      done.
    + rewrite (bool_decide_eq_false_2 (_ = _ ∧ _)) by (by intros [? _]).
      destruct (decide (Qfloor (latitude m) ∈ lats)) as [Hin'|Hin'].
      * rewrite !bool_decide_eq_true_2
          by (split; [by (try apply list_elem_of_further)|done]).
        cbn [app]. by rewrite <- Permutation_middle.
      * rewrite !bool_decide_eq_false_2; [done| |by intros [? _]].
        intros [[?|?]%elem_of_cons _]; done.
Qed.

Lemma cellsPoints_nil (lats lons : list Z) : cellsPoints [] lats lons = [].
Proof.
  unfold cellsPoints. induction lats as [|lat lats IH]; [done|].
  cbn [flat_map]. rewrite IH, app_nil_r.
  induction lons as [|lon lons IHl]; [done|]. cbn [flat_map]. by rewrite IHl.
Qed.

(** The primary pass of [grid] collects the points the primary pass of
    [array] collects, each as often. *)
Lemma primary_pass_Permutation (P : list MeasuredLocation) (s : Sector) :
  Forall inGrid P →
  flat_map (keepIn s)
    (cellsPoints P (fromTo (scanMinLatitude s) (scanMaxLatitude s))
       (fromTo (scanMinLongitude s) (scanMaxLongitude s)))
  ≡ₚ flat_map (keepIn s) P.
Proof.
  induction 1 as [|m P Hm HP IH].
  - by rewrite cellsPoints_nil.
  - rewrite cellsPoints_cons by apply NoDup_seqZ.
    rewrite flat_map_app, IH. cbn [flat_map]. apply Permutation_app_tail.
    unfold keepIn at 2.
    destruct (containsLocation s (latitude m) (longitude m)) eqn:Hc.
    + rewrite bool_decide_eq_true_2 by (by apply contained_cell_scanned).
      cbn [flat_map]. unfold keepIn. rewrite Hc. done.
    + case_bool_decide; [|done]. cbn [flat_map]. unfold keepIn. by rewrite Hc.
Qed.

(** A query that does not reach the antimeridian has no wrap amounts. *)
Lemma no_wrap_before (s : Sector) :
  (-180 < minLongitude s)%Q → extraLongitudeBefore s = 0.
Proof.
  intros H%Qlt_le_weak%Qfloor_resp_le. rewrite extraLongitudeBefore_eq.
  change (Qfloor (-180)) with (-180) in H. lia.
Qed.

Lemma no_wrap_after (s : Sector) :
  (maxLongitude s < 180)%Q → extraLongitudeAfter s = 0.
Proof.
  intros H. rewrite extraLongitudeAfter_eq.
  assert (Qfloor (maxLongitude s) < 180); [|lia].
  apply Z.lt_nge; intros Hge.
  apply (Qlt_not_le _ _ H). apply Qle_trans with (inject_Z (Qfloor (maxLongitude s))).
  - change 180%Q with (inject_Z 180). by rewrite <- Zle_Qle.
  - apply Qfloor_le.
Qed.

Lemma grid_array_no_wrap (data : Grid) (P : list MeasuredLocation) (s : Sector) :
  gridOf data P → Forall inGrid P →
  (-180 < minLongitude s)%Q → (maxLongitude s < 180)%Q →
  ∃ lg, grid data s = Return lg ∧ lg ≡ₚ array P s.
Proof.
  intros Hg HP Hmin Hmax. unfold grid, array.
  unfold gridBeforePass, gridAfterPass, arrayBeforePass, arrayAfterPass.
  rewrite (no_wrap_before s Hmin), (no_wrap_after s Hmax).
  rewrite (gridPrimaryPass_gridOf _ P) by done.
  rewrite !bool_decide_eq_false_2 by (intros H; by apply H).
  rewrite !bind_Return. eexists; split; [done|].
  unfold arrayPrimaryPass. cbn [app].
  by apply primary_pass_Permutation.
Qed.

(** C3: for every point set [P] and every query region [R] with
    [minLongitude > -180] and [maxLongitude < 180], the GRID-mode filter
    and the ARRAY-mode filter built from [P] both answer the query, and
    their answers hold the same points: the results of [grid] and [array]
    are rearrangements of each other, and so are the sorted results of
    [filter]. *)
Theorem grid_array_same_points (P : list MeasuredLocation) (R : Sector)
    (gridFilter arrayFilter : GeographicalFilter.t) :
  new P "GRID" = Return gridFilter →
  new P "ARRAY" = Return arrayFilter →
  (-180 < minLongitude R)%Q → (maxLongitude R < 180)%Q →
  ∃ data raw lg la,
    gridFilter = GridFilter data ∧ arrayFilter = ArrayFilter P
    ∧ grid data R = Return raw ∧ raw ≡ₚ array P R
    ∧ filter gridFilter R = Return lg ∧ filter arrayFilter R = Return la
    ∧ lg ≡ₚ la
    ∧ ∀ p, p ∈ lg ↔ p ∈ la.
Proof.
  intros Hgrid Harray Hmin Hmax.
  unfold new in Hgrid, Harray. cbn in Hgrid, Harray.
  injection Harray as <-.
  destruct (createGrid P) as [data|e] eqn:Hdata; [|done].
  injection Hgrid as <-.
  apply createGrid_Return in Hdata as [HP Hg].
  destruct (grid_array_no_wrap data P R Hg HP Hmin Hmax) as (raw & Hraw & Hsame).
  exists data, raw, (JSArray.sort compareLocations raw),
    (JSArray.sort compareLocations (array P R)).
  unfold filter. rewrite Hraw, !bind_Return.
  assert (JSArray.sort compareLocations raw
          ≡ₚ JSArray.sort compareLocations (array P R)) as Hperm.
  { by rewrite !sort_Permutation. }
  repeat (split; [done|]). intros p. by rewrite Hperm.
Qed.

Lemma new_GRID_inGrid (P : list MeasuredLocation) :
  Forall inGrid P →
  ∃ data, new P "GRID" = Return (GridFilter data) ∧ gridOf data P.
Proof.
  intros HP. destruct (createGrid_inGrid P HP) as (data & Hdata & Hg).
  exists data. split; [|done]. unfold new. cbn. by rewrite Hdata.
Qed.

Lemma locationsToUseForTest_inGrid : Forall inGrid locationsToUseForTest.
Proof. apply (bool_decide_unpack _). by vm_compute. Qed.

(** The reference points and the standard query of the unit tests. *)
Lemma grid_array_same_points_witness :
  ∃ gridFilter lg la,
    new locationsToUseForTest "GRID" = Return gridFilter
    ∧ filter gridFilter standardSector = Return lg
    ∧ filter (ArrayFilter locationsToUseForTest) standardSector = Return la
    ∧ lg ≡ₚ la.
Proof.
  destruct (new_GRID_inGrid _ locationsToUseForTest_inGrid) as (data & Hnew & _).
  destruct (grid_array_same_points locationsToUseForTest standardSector
              (GridFilter data) (ArrayFilter locationsToUseForTest))
    as (data' & raw & lg & la & _ & _ & _ & _ & Hlg & Hla & Hsame & _).
  - exact Hnew.
  - reflexivity.
  - reflexivity.
  - reflexivity.
  - exists (GridFilter data), lg, la. auto.
Defined.

(** ** The wrap passes *)

Lemma gridBeforePass_gridOf (data : Grid) (P : list MeasuredLocation)
    (s : Sector) (result : list MeasuredLocation) :
  gridOf data P →
  gridBeforePass data s result
  = if bool_decide (extraLongitudeBefore s ≠ 0) then
      if bool_decide (Forall (λ lat,
           Forall (cellRange lat) (fromTo (180 - extraLongitudeBefore s) 180))
           (fromTo (scanMinLatitude s) (scanMaxLatitude s)))
      then Return (result ++ flat_map (shiftIn (gridBeforeSector s) (-360))
             (cellsPoints P (fromTo (scanMinLatitude s) (scanMaxLatitude s))
                (fromTo (180 - extraLongitudeBefore s) 180)))
      else Throw TypeError
    else Return result.
Proof.
  intros Hg. unfold gridBeforePass. by rewrite (scan_gridOf _ P).
Qed.

Lemma gridAfterPass_gridOf (data : Grid) (P : list MeasuredLocation)
    (s : Sector) (result : list MeasuredLocation) :
  gridOf data P →
  gridAfterPass data s result
  = if bool_decide (extraLongitudeAfter s ≠ 0) then
      if bool_decide (Forall (λ lat,
           Forall (cellRange lat) (fromTo (-180) (-180 + extraLongitudeAfter s)))
           (fromTo (scanMinLatitude s) (scanMaxLatitude s)))
      then Return (result ++ flat_map (shiftIn (gridAfterSector s) 360)
             (cellsPoints P (fromTo (scanMinLatitude s) (scanMaxLatitude s))
                (fromTo (-180) (-180 + extraLongitudeAfter s))))
      else Throw TypeError
    else Return result.
Proof.
  intros Hg. unfold gridAfterPass. by rewrite (scan_gridOf _ P).
Qed.

(** ** Wrap amounts and scan bounds *)

(** C4: the code breaks the claim at an east bound that is not a whole
    number.  For the region of longitudes 0 to 180.5 the bound passes 180,
    so the claim's wrap-after amount is 0.5 and the wrap-after pass runs;
    the code floors the bound first, gets the amount 0 and skips the pass:
    the point at longitude -179.8, which lies inside the region once moved
    to 180.2, is not returned, in either structure.  On the west side the
    floor rounds the bound outwards (-180.5 gives the amount 1), and the
    mirrored query keeps its point. *)
Theorem wrap_after_pass_skipped_at_fractional_bound :
  (180 <= maxLongitude halfDegreeAfter)%Q
  ∧ (maxLongitude halfDegreeAfter - 180 == 0.5)%Q
  ∧ extraLongitudeAfter halfDegreeAfter = 0
  ∧ containsLocation halfDegreeAfter 5 (360 + -179.8) = true
  ∧ array eastOfAntimeridian halfDegreeAfter = []
  ∧ (this ← new eastOfAntimeridian "ARRAY"; filter this halfDegreeAfter) = Return []
  ∧ (this ← new eastOfAntimeridian "GRID"; filter this halfDegreeAfter) = Return []
  ∧ extraLongitudeBefore halfDegreeBefore = 1
  ∧ (this ← new westOfAntimeridian "ARRAY"; filter this halfDegreeBefore)
    = Return [mkMeasuredLocation 5 (-360 + 179.8) 1]
  ∧ (this ← new westOfAntimeridian "GRID"; filter this halfDegreeBefore)
    = Return [mkMeasuredLocation 5 (-360 + 179.8) 1].
Proof.
  repeat split; by vm_compute.
Qed.

(** ** The order of the filtered points *)

Lemma compareLocations_lt (x y : MeasuredLocation) :
  compareLocations x y < 0 ↔ (latitude x < latitude y)%Q.
Proof.
  unfold compareLocations.
  destruct (Qlt_bool (latitude y) (latitude x)) eqn:E1.
  { apply Qlt_bool_iff in E1. split; [lia|].
    intros H. exfalso. exact (Qlt_irrefl _ (Qlt_trans _ _ _ H E1)). }
  destruct (Qlt_bool (latitude x) (latitude y)) eqn:E2.
  { apply Qlt_bool_iff in E2. split; [done|lia]. }
  assert (¬ (latitude x < latitude y)%Q) as Hn.
  { intros H. apply Qlt_bool_iff in H. congruence. }
  destruct (Qlt_bool (longitude y) (longitude x)); [split; [lia|done]|].
  destruct (Qlt_bool (longitude y) (longitude y)) eqn:E4.
  { apply Qlt_bool_iff in E4. by apply Qlt_irrefl in E4. }
  split; [lia|done].
Qed.

(** Whatever the structure, the filtered points are ascending by
    latitude. *)
Lemma filter_ascending_latitude (this : GeographicalFilter.t) (s : Sector)
    (result : list MeasuredLocation) :
  filter this s = Return result → StronglySorted latitudeLe result.
Proof.
  unfold filter. intros H.
  destruct (match this with
            | GridFilter data => grid data s
            | ArrayFilter data => Return (array data s)
            end) as [l|e]; [|done].
  rewrite bind_Return in H. injection H as <-.
  apply (sort_ascending compareLocations latitude compareLocations_lt).
Qed.

(** For the sort, the comparator of [filter] is the comparator of
    latitudes: its two longitude tests never produce a negative answer, so
    points of equal latitude stay in the order the passes collected
    them. *)
Lemma sort_compareLocations (l : list MeasuredLocation) :
  JSArray.sort compareLocations l = JSArray.sort compareLatitudes l.
Proof.
  apply sort_ext. intros x y. unfold compareLocations, compareLatitudes.
  destruct (Qlt_bool (latitude y) (latitude x)); [done|].
  destruct (Qlt_bool (latitude x) (latitude y)); [done|].
  destruct (Qlt_bool (longitude y) (longitude x)); [done|].
  destruct (Qlt_bool (longitude y) (longitude y)) eqn:E; [|done].
  apply Qlt_bool_iff in E. by apply Qlt_irrefl in E.
Qed.

(** C1: the code breaks the claim.  With two points of equal latitude
    stored east first, in an ARRAY filter or in one cell of a GRID filter,
    [filter] returns them east first: the comparator answers 0 when asked
    whether the western point goes before the eastern one, because its last
    test compares [elm2.longitude] with itself. *)
Theorem filter_keeps_equal_latitudes_unsorted :
  (this ← new tiedPoints "ARRAY"; filter this smallSector) = Return tiedPoints
  ∧ (this ← new tiedCellPoints "GRID"; filter this smallSector)
    = Return tiedCellPoints
  ∧ ¬ Sorted latLonLe tiedPoints
  ∧ ¬ Sorted latLonLe tiedCellPoints
  ∧ compareLocations (mkMeasuredLocation 0 1 1) (mkMeasuredLocation 0 5 1) = 0
  ∧ compareLocations (mkMeasuredLocation 0 5 1) (mkMeasuredLocation 0 1 1) = 1.
Proof.
  split; [by vm_compute|]. split; [by vm_compute|].
  split; [|split; [|by split]].
  - intros H. inversion H as [|a l _ Hd]; subst. inversion Hd as [|b l' Hab]; subst.
    destruct Hab as [Hlt|[_ Hle]]; [by vm_compute in Hlt|by vm_compute in Hle].
  - intros H. inversion H as [|a l _ Hd]; subst. inversion Hd as [|b l' Hab]; subst.
    destruct Hab as [Hlt|[_ Hle]]; [by vm_compute in Hlt|by vm_compute in Hle].
Qed.

(** ** The reference query *)

(** The four unit tests of the repository hold in the model. *)
Lemma unit_tests :
  length (array locationsToUseForTest standardSector) = 3%nat
  ∧ length (array locationsToUseForTest antimeridianSector) = 12%nat
  ∧ (data ← createGrid locationsToUseForTest;
     result ← grid data standardSector; Return (length result)) = Return 3%nat
  ∧ (data ← createGrid locationsToUseForTest;
     result ← grid data antimeridianSector; Return (map longitude result))
    = Return referenceLongitudes.
Proof. repeat split; by vm_compute. Qed.

(** C2, as stated, fails: the twelve longitudes do not come back in
    ascending order. *)
Lemma reference_query_not_ascending_longitude :
  ¬ ∃ result,
      (this ← new locationsToUseForTest "GRID"; filter this antimeridianSector)
      = Return result
      ∧ Forall2 Qeq (map longitude result) ascendingLongitudes.
Proof.
  intros (result & H & HF). vm_compute in H. injection H as <-.
  inversion HF as [|x y l l' Hxy _]; subst. by vm_compute in Hxy.
Qed.

(** C2, amended: the reference query returns exactly twelve points,
    ascending by latitude from -25 to 30, whose longitudes in the returned
    order are -160, -165, -170, -175, -179.9, -180.1, -185, -190, -195,
    -200, -205, -210; this is the answer of [filter] in GRID and in ARRAY
    mode, and the order in which [grid] itself collects them. *)
Theorem reference_query_longitudes :
  (∃ result,
      (this ← new locationsToUseForTest "GRID"; filter this antimeridianSector)
      = Return result
      ∧ length result = 12%nat
      ∧ map longitude result = referenceLongitudes
      ∧ map latitude result = referenceLatitudes)
  ∧ (∃ result,
      (this ← new locationsToUseForTest "ARRAY"; filter this antimeridianSector)
      = Return result
      ∧ length result = 12%nat
      ∧ map longitude result = referenceLongitudes
      ∧ map latitude result = referenceLatitudes)
  ∧ (∃ result,
      (data ← createGrid locationsToUseForTest; grid data antimeridianSector)
      = Return result
      ∧ map longitude result = referenceLongitudes).
Proof.
  split; [|split].
  - eexists. split; [by vm_compute|]. by vm_compute.
  - eexists. split; [by vm_compute|]. by vm_compute.
  - eexists. split; [by vm_compute|]. by vm_compute.
Qed.

(** ** Construction *)

(** C6, as stated, fails in its last part: with the structure GRID the
    construction does not succeed for a point outside the cells of the
    grid; [createGrid] throws a [TypeError]. *)
Lemma new_GRID_east_of_grid_throws :
  new eastOfGrid "GRID" = Throw TypeError
  ∧ ¬ ∃ this, new eastOfGrid "GRID" = Return this.
Proof.
  assert (new eastOfGrid "GRID" = Throw TypeError) as H by (by vm_compute).
  split; [done|]. intros [this Hthis]. congruence.
Qed.

(** C6, amended: a structure other than GRID and ARRAY makes the
    constructor throw [ArgumentError], whatever the data; a filter that is
    constructed has the structure that was asked for; with ARRAY the
    construction always succeeds and keeps the data as given; with GRID it
    succeeds when every point lies in a cell of the grid (floored latitude
    in -90..90, floored longitude in -180..180) and throws [TypeError]
    otherwise, never [ArgumentError]. *)
Theorem new_checks_dataStructure (data : list MeasuredLocation) :
  (∀ dataStructure, dataStructure ≠ "GRID" → dataStructure ≠ "ARRAY" →
     new data dataStructure = Throw ArgumentError)
  ∧ (∀ dataStructure this, new data dataStructure = Return this →
       _dataStructure this = dataStructure)
  ∧ new data "ARRAY" = Return (ArrayFilter data)
  ∧ (Forall inGrid data →
       ∃ grid, new data "GRID" = Return (GridFilter grid) ∧ gridOf grid data)
  ∧ (¬ Forall inGrid data → new data "GRID" = Throw TypeError).
Proof.
  split; [|split; [|split; [|split]]].
  - intros ds H1 H2. unfold new.
    by rewrite (bool_decide_eq_true_2 _ H1), (bool_decide_eq_true_2 _ H2).
  - intros ds this. unfold new.
    destruct (decide (ds = "GRID")) as [->|H1].
    + cbn. destruct (createGrid data); [|done]. by intros [= <-].
    + destruct (decide (ds = "ARRAY")) as [->|H2].
      * cbn. by intros [= <-].
      * by rewrite (bool_decide_eq_true_2 _ H1), (bool_decide_eq_true_2 _ H2).
  - reflexivity.
  - apply new_GRID_inGrid.
  - intros H. unfold new. cbn. by rewrite (createGrid_not_inGrid data H).
Qed.

(** ** The gradient *)


Lemma fraction_inj (i j k : nat) :
  (0 < k)%nat → (fraction i k == fraction j k)%Q → i = j.
Proof.
  intros Hk H. unfold fraction in H.
  assert (¬ (inject_Z (Z.of_nat k) == 0)%Q) as Hk0.
  { unfold Qeq. simpl. lia. }
  assert (inject_Z (Z.of_nat i) == inject_Z (Z.of_nat j))%Q as Hij.
  { rewrite <- (Qmult_div_r (inject_Z (Z.of_nat i)) _ Hk0), H.
    by apply Qmult_div_r. }
  unfold Qeq in Hij. simpl in Hij. lia.
Qed.

Lemma stopOf_inj (i j k : nat) : (0 < k)%nat → stopOf i k = stopOf j k → i = j.
Proof.
  intros Hk H. apply (fraction_inj i j k Hk).
  apply Q2Qc_eq_iff. unfold stopOf in H. congruence.
Qed.

(** The loop [scale.forEach(function (color, index) { gradient[index /
    scale.length] = color; })], started at [index] on the rest [colors] of
    the scale: it does not throw, it maps the stop of each remaining index
    to its color, and it leaves every other key as it was. *)
Lemma continuous_loop (k : nat) (colors : list string) (index : nat)
    (gradient : Gradient) :
  (0 < k)%nat →
  ∃ gradient',
    forEachIndexed (λ gradient color index,
      Return (<[stopOf index k := color]> gradient)) colors index gradient
    = Return gradient'
    ∧ (∀ j, (j < length colors)%nat →
         gradient' !! stopOf (index + j) k = colors !! j)
    ∧ (∀ key, gradient' !! key = gradient !! key
         ∨ ∃ j, (j < length colors)%nat ∧ key = stopOf (index + j) k).
Proof.
  intros Hk. revert index gradient.
  induction colors as [|color colors IH]; intros index gradient.
  - exists gradient. split; [done|]. split; [simpl; lia|by left].
  - cbn [forEachIndexed]. rewrite bind_Return.
    destruct (IH (S index) (<[stopOf index k := color]> gradient))
      as (gradient' & -> & Hin & Hout).
    exists gradient'. split; [done|]. split.
    + intros [|j] Hj.
      * destruct (Hout (stopOf (index + 0) k)) as [->|(j' & _ & Heq)].
        -- rewrite Nat.add_0_r. by rewrite lookup_insert_eq.
        -- apply stopOf_inj in Heq; [lia|done].
      * replace (index + S j)%nat with (S index + j)%nat by lia.
        apply Hin. simpl in Hj. lia.
    + intros key. destruct (Hout key) as [->|(j & Hj & ->)].
      * destruct (decide (key = stopOf index k)) as [->|Hne].
        -- right. exists 0%nat. split; [simpl; lia|]. by rewrite Nat.add_0_r.
        -- left. by rewrite lookup_insert_ne.
      * right. exists (S j). split; [simpl; lia|]. f_equal. lia.
Qed.

(** The CONTINUOUS table of a scale. *)
Lemma continuousStops_spec (scale : list string) :
  ∃ gradient,
    continuousStops scale ∅ = Return gradient
    ∧ (∀ i, (i < length scale)%nat →
         gradient !! stopOf i (length scale) = scale !! i)
    ∧ (∀ key, is_Some (gradient !! key) →
         ∃ i, (i < length scale)%nat ∧ key = stopOf i (length scale)).
Proof.
  destruct scale as [|color scale].
  { exists ∅. split; [done|]. split; [simpl; lia|].
    intros key [c Hc]. by rewrite lookup_empty in Hc. }
  set (colors := color :: scale).
  destruct (continuous_loop (length colors) colors 0 ∅) as (gradient & Hrun & Hin & Hout);
    [simpl; lia|].
  exists gradient. split; [exact Hrun|]. split; [exact Hin|].
  intros key [c Hc]. destruct (Hout key) as [Heq|H]; [|done].
  rewrite Heq, lookup_empty in Hc. done.
Qed.

(** ** The sort of [setGradient] *)

Lemma compareMeasures_lt (x y : MeasuredLocation) :
  compareMeasures x y < 0 ↔ (measure x < measure y)%Q.
Proof.
  unfold compareMeasures.
  destruct (Qlt_bool (measure x) (measure y)) eqn:E1.
  { apply Qlt_bool_iff in E1. split; [done|lia]. }
  assert (¬ (measure x < measure y)%Q) as Hn.
  { intros H. apply Qlt_bool_iff in H. congruence. }
  destruct (Qlt_bool (measure y) (measure x)); split; (lia || done).
Qed.

Lemma setGradient_CONTINUOUS (this : t) (data : option Ref) (σ : Store) :
  _intervalType this = CONTINUOUS →
  ∃ gradient,
    continuousStops (_scale this) ∅ = Return gradient
    ∧ setGradient this data σ = (σ, Return (set_gradient this gradient)).
Proof.
  intros Hc. destruct (continuousStops_spec (_scale this)) as (gradient & Hrun & _).
  exists gradient. split; [done|]. unfold setGradient. by rewrite Hc, Hrun.
Qed.

(** C8: with the CONTINUOUS interval type and a scale of length [k],
    [setGradient] does not throw, leaves the store alone, and stores a
    table in which stop [i/k] holds the [i]-th color for every [i < k] and
    which has no other stop; the table is the same whatever data and store
    the call is given, and a second call on the resulting layer returns
    that layer again. *)
Theorem continuous_gradient_stops (this : t) (data : option Ref) (σ : Store) :
  _intervalType this = CONTINUOUS →
  ∃ gradient,
    setGradient this data σ = (σ, Return (set_gradient this gradient))
    ∧ (∀ i, (i < length (_scale this))%nat →
         gradient !! StopAt (Q2Qc (inject_Z (Z.of_nat i)
                                   / inject_Z (Z.of_nat (length (_scale this)))))
         = _scale this !! i)
    ∧ (∀ key, is_Some (gradient !! key) →
         ∃ i, (i < length (_scale this))%nat
           ∧ key = StopAt (Q2Qc (inject_Z (Z.of_nat i)
                                 / inject_Z (Z.of_nat (length (_scale this))))))
    ∧ (∀ data' σ',
         setGradient this data' σ' = (σ', Return (set_gradient this gradient)))
    ∧ setGradient (set_gradient this gradient) data σ
      = (σ, Return (set_gradient this gradient)).
Proof.
  intros Hc.
  destruct (continuousStops_spec (_scale this)) as (gradient & Hrun & Hin & Hdom).
  assert (∀ data' σ',
    setGradient this data' σ' = (σ', Return (set_gradient this gradient))) as Hany.
  { intros data' σ'. unfold setGradient. by rewrite Hc, Hrun. }
  exists gradient. split; [apply Hany|]. split; [exact Hin|]. split; [exact Hdom|].
  split; [exact Hany|].
  unfold setGradient. cbn [_intervalType _scale set_gradient].
  by rewrite Hc, Hrun.
Qed.

(** The default scale: five stops, at 0, 1/5, ..., 4/5. *)
Lemma continuous_gradient_stops_witness :
  ∃ gradient,
    setGradient referenceLayer None ∅
    = (∅, Return (set_gradient referenceLayer gradient))
    ∧ gradient !! StopAt (Q2Qc 0) = Some "blue"
    ∧ gradient !! StopAt (Q2Qc (1 # 5)) = Some "cyan"
    ∧ gradient !! StopAt (Q2Qc (4 # 5)) = Some "red"
    ∧ gradient !! StopAt (Q2Qc 1) = None.
Proof.
  destruct (continuous_gradient_stops referenceLayer None ∅ eq_refl)
    as (gradient & Hrun & Hin & Hdom & _).
  exists gradient. split; [exact Hrun|].
  assert (∀ (i : nat) (q : Q),
    (q == inject_Z (Z.of_nat i) / inject_Z (Z.of_nat 5))%Q → (i < 5)%nat →
    gradient !! StopAt (Q2Qc q) = _scale referenceLayer !! i) as Hat.
  { intros i q Hq Hi. rewrite <- (Hin i Hi). do 2 f_equal. by apply Q2Qc_eq_iff. }
  split; [apply (Hat 0%nat); [by vm_compute|lia]|].
  split; [apply (Hat 1%nat); [by vm_compute|lia]|].
  split; [apply (Hat 4%nat); [by vm_compute|lia]|].
  destruct (gradient !! StopAt (Q2Qc 1)) as [c|] eqn:Hc; [|done].
  destruct (Hdom (StopAt (Q2Qc 1)) (mk_is_Some _ _ Hc)) as (i & Hi & Heq).
  exfalso. injection Heq as Heq.
  simpl in Hi. do 5 (destruct i as [|i]; [by vm_compute in Heq|]). lia.
Defined.

(** ** QUANTILES *)

Lemma sort_length {A : Type} (comparefn : A → A → Z) (l : list A) :
  length (JSArray.sort comparefn l) = length l.
Proof. apply Permutation_length, sort_Permutation. Qed.

(** In the QUANTILES branch the array behind [data] is sorted in place
    before anything else can throw. *)
Lemma setGradient_QUANTILES_store (this : t) (ref : Ref) (σ : Store)
    (points : list MeasuredLocation) :
  _intervalType this = QUANTILES → σ !! ref = Some points →
  fst (setGradient this (Some ref) σ)
  = <[ref := JSArray.sort compareMeasures points]> σ.
Proof.
  intros Hq Hσ. unfold setGradient. rewrite Hq, Hσ.
  by destruct (last (JSArray.sort compareMeasures points)).
Qed.

Lemma quantiles_empty_data_throws (this : t) (ref : Ref) (σ : Store) :
  _intervalType this = QUANTILES → σ !! ref = Some [] →
  snd (setGradient this (Some ref) σ) = Throw TypeError.
Proof.
  intros Hq Hσ. unfold setGradient. by rewrite Hq, Hσ.
Qed.

(** With at least one point and fewer points than colors, the QUANTILES
    branch builds the table of the CONTINUOUS branch. *)
Lemma quantiles_short_data_is_continuous (this : t) (ref : Ref) (σ : Store)
    (points : list MeasuredLocation) :
  _intervalType this = QUANTILES → σ !! ref = Some points →
  points ≠ [] → (length points < length (_scale this))%nat →
  gradientOf (setGradient this (Some ref) σ)
  = gradientOf (setGradient (with_intervalType this CONTINUOUS) (Some ref) σ).
Proof.
  intros Hq Hσ Hne Hlen. unfold setGradient. rewrite Hq, Hσ.
  cbn [_intervalType with_intervalType _scale].
  pose proof (sort_length compareMeasures points) as Hl.
  destruct (last (JSArray.sort compareMeasures points)) as [lastPoint|] eqn:Hlast.
  - rewrite (proj2 (Nat.leb_gt _ _)) by lia.
    unfold gradientOf. cbn [snd].
    by destruct (continuousStops (_scale this) ∅).
  - apply last_None in Hlast. rewrite Hlast in Hl.
    destruct points; [done|simpl in Hl; lia].
Qed.

(** C7: the code breaks the claim for the empty point sequence.  The
    default scale has five colors and the array has no point, so there are
    fewer points than colors; the QUANTILES call throws a [TypeError] (it
    reads [data[data.length - 1].measure] before it compares the lengths),
    while the CONTINUOUS call on the same layer and array returns a
    table. *)
Theorem quantiles_gradient_empty_data_throws :
  (length ([] : list MeasuredLocation) < length (_scale quantilesLayer))%nat
  ∧ snd (setGradient quantilesLayer (Some 1%positive) {[1%positive := []]})
    = Throw TypeError
  ∧ (∃ gradient,
       gradientOf (setGradient referenceLayer (Some 1%positive) {[1%positive := []]})
       = Return gradient)
  ∧ snd (set_intervalType referenceLayer QUANTILES ∅) = Throw TypeError.
Proof.
  split; [simpl; lia|]. split; [by vm_compute|]. split; [|by vm_compute].
  destruct (setGradient_CONTINUOUS referenceLayer (Some 1%positive)
              {[1%positive := []]} eq_refl) as (gradient & _ & ->).
  by exists gradient.
Qed.

(** C10: when the interval type is QUANTILES and [setGradient] is given
    an array, the array the caller passed holds, after the call, the same
    points in ascending order of measure: a rearrangement of the points it
    held before, each point as it was.  No other array of the store is
    touched. *)
Theorem setGradient_sorts_caller_array (this : t) (ref : Ref) (σ : Store)
    (points : list MeasuredLocation) :
  _intervalType this = QUANTILES → σ !! ref = Some points →
  ∃ sorted,
    fst (setGradient this (Some ref) σ) !! ref = Some sorted
    ∧ sorted ≡ₚ points
    ∧ StronglySorted measureLe sorted
    ∧ (∀ ref', ref' ≠ ref →
         fst (setGradient this (Some ref) σ) !! ref' = σ !! ref').
Proof.
  intros Hq Hσ. rewrite (setGradient_QUANTILES_store this ref σ points Hq Hσ).
  exists (JSArray.sort compareMeasures points).
  split; [by rewrite lookup_insert_eq|].
  split; [apply sort_Permutation|].
  split; [apply (sort_ascending compareMeasures measure compareMeasures_lt)|].
  intros ref' Hne. by rewrite lookup_insert_ne.
Qed.

(** A quantile layer and an array of three points. *)
Lemma setGradient_sorts_caller_array_witness :
  ∃ sorted,
    fst (setGradient quantilesLayer (Some 1%positive)
           {[1%positive := unsortedMeasures]}) !! 1%positive = Some sorted
    ∧ sorted ≡ₚ unsortedMeasures
    ∧ StronglySorted measureLe sorted
    ∧ (∀ ref', ref' ≠ 1%positive →
         fst (setGradient quantilesLayer (Some 1%positive)
                {[1%positive := unsortedMeasures]}) !! ref'
         = ({[1%positive := unsortedMeasures]} : Store) !! ref').
Proof.
  apply (setGradient_sorts_caller_array quantilesLayer 1%positive
           {[1%positive := unsortedMeasures]} unsortedMeasures).
  - reflexivity.
  - reflexivity.
Defined.

(** The caller of the call above sees its array in a new order. *)
Lemma setGradient_reorders_unsortedMeasures :
  fst (setGradient quantilesLayer (Some 1%positive)
         {[1%positive := unsortedMeasures]}) !! 1%positive
  = Some [mkMeasuredLocation 1 1 1; mkMeasuredLocation 2 2 2;
          mkMeasuredLocation 0 0 3].
Proof. by vm_compute. Qed.

(** ** The extended tile *)

(** C9: the sector the tile is drawn for is the tile's sector grown on
    each side by [extensionFactor] times its latitude span, respectively
    its longitude span, with [extensionFactor = 1]; and when
    [retrieveTileImage] reaches the tile renderer, the options it hands
    over carry that sector, the points [filter] returns for it, and the
    width [tileWidth + 2 * ceil(extensionFactor * tileWidth)] and height
    [tileHeight + 2 * ceil(extensionFactor * tileHeight)]. *)
Theorem extended_sector_and_canvas (this : t) (tile : Tile)
    (data : list MeasuredLocation) (options : TileOptions) :
  retrieveTileImage this tile = Return (Some (data, options)) →
  let s := sector tile in
  let extended := calculateExtendedSector s in
  let f := extensionFactor extended in
  f = 1%Q
  ∧ minLatitude (extendedSector extended)
    = (minLatitude s - (maxLatitude s - minLatitude s) * f)%Q
  ∧ maxLatitude (extendedSector extended)
    = (maxLatitude s + (maxLatitude s - minLatitude s) * f)%Q
  ∧ minLongitude (extendedSector extended)
    = (minLongitude s - (maxLongitude s - minLongitude s) * f)%Q
  ∧ maxLongitude (extendedSector extended)
    = (maxLongitude s + (maxLongitude s - minLongitude s) * f)%Q
  ∧ optSector options = extendedSector extended
  ∧ GeographicalFilter.filter (_filter this) (extendedSector extended) = Return data
  ∧ width options = (tileWidth this + 2 * inject_Z (Qceiling (f * tileWidth this)))%Q
  ∧ height options = (tileHeight this + 2 * inject_Z (Qceiling (f * tileHeight this)))%Q.
Proof.
  intros H. cbv zeta. unfold retrieveTileImage in H.
  repeat case_bool_decide; try done.
  destruct (filter (_filter this) (extendedSector (calculateExtendedSector (sector tile))))
    as [l|e] eqn:Hl; [|done].
  rewrite bind_Return in H. injection H as <- <-.
  by repeat split.
Qed.

(** A tile of 45 by 45 degrees and 512 by 512 pixels: the extended sector
    spans 135 degrees each way and the canvas 1536 pixels. *)
Lemma extended_sector_and_canvas_witness :
  ∃ data options,
    retrieveTileImage referenceLayer referenceTile = Return (Some (data, options))
    ∧ optSector options = mkSector (0 - (45 - 0) * 1) (45 + (45 - 0) * 1)
                            (-180 - (-135 - -180) * 1) (-135 + (-135 - -180) * 1)
    ∧ (width options == 1536)%Q ∧ (height options == 1536)%Q.
Proof.
  destruct (retrieveTileImage referenceLayer referenceTile) as [[[data options]|]|e] eqn:H;
    [|by vm_compute in H|by vm_compute in H].
  destruct (extended_sector_and_canvas _ _ _ _ H)
    as (_ & _ & _ & _ & _ & Hs & _ & Hw & Hh).
  exists data, options. split; [done|]. split; [exact Hs|].
  rewrite Hw, Hh. split; by vm_compute.
Defined.

(** * Further properties of the code *)

(** ** Stability of the sort *)

Lemma filter_reverse {A : Type} (f : A → bool) (l : list A) :
  List.filter f (reverse l) = reverse (List.filter f l).
Proof.
  induction l as [|x l IH]; [done|].
  rewrite reverse_cons, List.filter_app, IH. cbn [List.filter].
  destruct (f x); [by rewrite reverse_cons|by rewrite app_nil_r].
Qed.

Section sort_stable.
Context {A : Type} (comparefn : A → A → Z) (key : A → Q).
Hypothesis comparefn_lt : ∀ x y, comparefn x y < 0 ↔ (key x < key y)%Q.

Let atKey (c : Q) (a : A) : bool := Qeq_bool (key a) c.

Lemma insertLast_atKey (c : Q) (x : A) (r : list A) :
  List.filter (atKey c) (JSArray.insertLast comparefn x r)
  = List.filter (atKey c) (x :: r).
Proof.
  induction r as [|y r IH]; [done|].
  cbn [JSArray.insertLast].
  destruct (Z.ltb_spec (comparefn x y) 0) as [Hlt|Hge]; [|done].
  apply comparefn_lt in Hlt.
  cbn [List.filter] in *. rewrite IH.
  destruct (atKey c x) eqn:Hx, (atKey c y) eqn:Hy; try done.
  exfalso. unfold atKey in Hx, Hy. apply Qeq_bool_iff in Hx, Hy.
  rewrite Hx, Hy in Hlt. by apply Qlt_irrefl in Hlt.
Qed.

Lemma sort_run_atKey (c : Q) (l acc : list A) :
  List.filter (atKey c) (foldl (λ r x, JSArray.insertLast comparefn x r) acc l)
  = reverse (List.filter (atKey c) l) ++ List.filter (atKey c) acc.
Proof.
  revert acc. induction l as [|x l IH]; intros acc; [done|].
  cbn [foldl]. rewrite IH, insertLast_atKey. cbn [List.filter].
  destruct (atKey c x); [|done].
  by rewrite reverse_cons, <- app_assoc.
Qed.

(** Elements of equal key keep their order. *)
Lemma sort_atKey (c : Q) (l : list A) :
  List.filter (atKey c) (JSArray.sort comparefn l) = List.filter (atKey c) l.
Proof.
  unfold JSArray.sort. rewrite filter_reverse, sort_run_atKey.
  cbn [List.filter]. by rewrite app_nil_r, reverse_involutive.
Qed.
End sort_stable.

(** ** The grid, cell by cell *)

(** X1: in a grid made by [createGrid] the cells are exactly the integer
    pairs of -90..90 by -180..180; the cell [(lat, lon)] holds the points
    whose floored latitude is [lat] and floored longitude is [lon], in the
    order they had in the input, and reading any other cell throws a
    [TypeError]. *)
Theorem createGrid_cells (P : list MeasuredLocation) (data : Grid) :
  createGrid P = Return data →
  ∀ lat lon,
    cellAt data lat lon
    = if bool_decide (-90 ≤ lat ≤ 90 ∧ -180 ≤ lon ≤ 180)
      then Return (List.filter (λ p, (Qfloor (latitude p) =? lat)
                                     && (Qfloor (longitude p) =? lon)) P)
      else Throw TypeError.
Proof.
  intros [_ Hg]%createGrid_Return lat lon.
  rewrite (cellAt_gridOf data P lat lon Hg). unfold cellRange, cellPoints.
  by repeat case_bool_decide.
Qed.

(** The reference points: the cell (20, 160) holds one point, the cell
    (0, 0) none, and there is no cell (91, 0). *)
Lemma createGrid_cells_witness :
  ∃ data,
    createGrid locationsToUseForTest = Return data
    ∧ cellAt data 20 160 = Return [mkMeasuredLocation 20 160 10]
    ∧ cellAt data (-5) (-180) = Return [mkMeasuredLocation (-5) (-179.9) 10]
    ∧ cellAt data 0 0 = Return []
    ∧ cellAt data 91 0 = Throw TypeError.
Proof.
  destruct (createGrid_inGrid _ locationsToUseForTest_inGrid) as (data & Hdata & _).
  pose proof (createGrid_cells _ _ Hdata) as H.
  exists data. split; [exact Hdata|].
  rewrite !H. repeat split; by vm_compute.
Defined.

(** ** Queries that do not wrap *)

Lemma flat_map_keepIn (s : Sector) (l : list MeasuredLocation) :
  flat_map (keepIn s) l = List.filter (inSector s) l.
Proof.
  induction l as [|x l IH]; [done|].
  cbn [flat_map List.filter]. rewrite IH. unfold keepIn, inSector.
  by destruct (containsLocation s (latitude x) (longitude x)).
Qed.

Lemma new_builtFrom (P : list MeasuredLocation) (ds : string)
    (this : GeographicalFilter.t) :
  new P ds = Return this → builtFrom this P.
Proof.
  unfold new. destruct (decide (ds = "GRID")) as [->|H1].
  - cbn. destruct (createGrid P) as [data|e] eqn:Hdata; [|done].
    intros [= <-]. apply createGrid_Return in Hdata as [HP Hg]. by split.
  - destruct (decide (ds = "ARRAY")) as [->|H2].
    + cbn. by intros [= <-].
    + by rewrite (bool_decide_eq_true_2 _ H1), (bool_decide_eq_true_2 _ H2).
Qed.

Lemma filter_collected (this : GeographicalFilter.t) (s : Sector) :
  filter this s
  = (raw ← collected this s; Return (JSArray.sort compareLocations raw)).
Proof. by destruct this. Qed.

Lemma collected_no_wrap (this : GeographicalFilter.t) (P : list MeasuredLocation)
    (s : Sector) :
  builtFrom this P →
  (-180 < minLongitude s)%Q → (maxLongitude s < 180)%Q →
  ∃ raw, collected this s = Return raw ∧ raw ≡ₚ List.filter (inSector s) P.
Proof.
  intros Hb Hmin Hmax. destruct this as [data|data]; cbn in Hb |- *.
  - destruct Hb as [Hg HP].
    destruct (grid_array_no_wrap data P s Hg HP Hmin Hmax) as (raw & Hraw & Hperm).
    exists raw. split; [done|]. rewrite Hperm.
    unfold array, arrayBeforePass, arrayAfterPass, arrayPrimaryPass.
    rewrite (no_wrap_before s Hmin), (no_wrap_after s Hmax).
    rewrite !bool_decide_eq_false_2 by (intros H; by apply H).
    cbn [app]. by rewrite flat_map_keepIn.
  - subst data. eexists; split; [done|].
    unfold array, arrayBeforePass, arrayAfterPass, arrayPrimaryPass.
    rewrite (no_wrap_before s Hmin), (no_wrap_after s Hmax).
    rewrite !bool_decide_eq_false_2 by (intros H; by apply H).
    cbn [app]. by rewrite flat_map_keepIn.
Qed.

(** X2: for a region with [minLongitude > -180] and [maxLongitude < 180],
    [filter] on a filter built from [P], in either structure, returns
    exactly the points of [P] that the region contains, each as often as
    it is in [P]: a point is in the answer if and only if it is a point
    of [P] inside the region. *)
Theorem filter_no_wrap_exact (P : list MeasuredLocation) (dataStructure : string)
    (this : GeographicalFilter.t) (R : Sector) :
  new P dataStructure = Return this →
  (-180 < minLongitude R)%Q → (maxLongitude R < 180)%Q →
  ∃ result,
    filter this R = Return result
    ∧ result ≡ₚ List.filter (λ p, containsLocation R (latitude p) (longitude p)) P
    ∧ ∀ p, p ∈ result
           ↔ p ∈ P ∧ containsLocation R (latitude p) (longitude p) = true.
Proof.
  intros Hnew%new_builtFrom Hmin Hmax.
  destruct (collected_no_wrap this P R Hnew Hmin Hmax) as (raw & Hraw & Hperm).
  exists (JSArray.sort compareLocations raw).
  rewrite filter_collected, Hraw, bind_Return. split; [done|].
  assert (JSArray.sort compareLocations raw ≡ₚ List.filter (inSector R) P) as Hs.
  { by rewrite sort_Permutation. }
  split; [exact Hs|]. intros p. rewrite Hs.
  rewrite list_elem_of_In, List.filter_In, <- list_elem_of_In. done.
Qed.

(** The reference points in ARRAY mode and the standard query: three
    points. *)
Lemma filter_no_wrap_exact_witness :
  ∃ result,
    filter (ArrayFilter locationsToUseForTest) standardSector = Return result
    ∧ result ≡ₚ [mkMeasuredLocation 20 160 10; mkMeasuredLocation 25 155 10;
                 mkMeasuredLocation 30 150 10].
Proof.
  destruct (filter_no_wrap_exact locationsToUseForTest "ARRAY"
              (ArrayFilter locationsToUseForTest) standardSector)
    as (result & Hres & Hperm & _); [reflexivity..|].
  exists result. split; [exact Hres|]. exact Hperm.
Defined.

(** ** The order of the answer *)

(** X3: the answer of [filter] is a rearrangement of the points the
    passes of the query collected, it is ascending by latitude, and
    points of equal latitude come in the order in which they were
    collected (the longitude tests of the comparator never move a
    point). *)
Theorem filter_orders_by_latitude_only (this : GeographicalFilter.t)
    (s : Sector) (result : list MeasuredLocation) :
  filter this s = Return result →
  ∃ raw,
    collected this s = Return raw
    ∧ result ≡ₚ raw
    ∧ StronglySorted latitudeLe result
    ∧ ∀ c : Q, List.filter (atLatitude c) result = List.filter (atLatitude c) raw.
Proof.
  rewrite filter_collected. destruct (collected this s) as [raw|e]; [|done].
  rewrite bind_Return. intros [= <-]. exists raw. split; [done|].
  split; [apply sort_Permutation|].
  split; [apply (sort_ascending compareLocations latitude compareLocations_lt)|].
  intros c. apply (sort_atKey compareLocations latitude compareLocations_lt).
Qed.

(** Two points at latitude 0 and one at latitude -1, in ARRAY mode: the
    southern point comes first, the two others stay east before west. *)
Lemma filter_orders_by_latitude_only_witness :
  ∃ result raw,
    filter (ArrayFilter (tiedPoints ++ [mkMeasuredLocation (-1) 3 1])) smallSector
    = Return result
    ∧ collected (ArrayFilter (tiedPoints ++ [mkMeasuredLocation (-1) 3 1])) smallSector
      = Return raw
    ∧ result = [mkMeasuredLocation (-1) 3 1; mkMeasuredLocation 0 5 1;
                mkMeasuredLocation 0 1 1]
    ∧ result ≡ₚ raw
    ∧ StronglySorted latitudeLe result
    ∧ List.filter (atLatitude 0) result = List.filter (atLatitude 0) raw.
Proof.
  destruct (filter (ArrayFilter (tiedPoints ++ [mkMeasuredLocation (-1) 3 1])) smallSector)
    as [result|e] eqn:H; [|by vm_compute in H].
  destruct (filter_orders_by_latitude_only _ _ _ H) as (raw & Hraw & Hperm & Hsort & Hties).
  exists result, raw. split; [done|]. split; [exact Hraw|].
  split; [vm_compute in H; by injection H as <-|].
  split; [exact Hperm|]. split; [exact Hsort|]. apply Hties.
Defined.

(** ** When [grid] throws *)

Lemma scanMinLatitude_ge (s : Sector) : -90 ≤ scanMinLatitude s.
Proof.
  unfold scanMinLatitude. destruct (Z.leb_spec (flooredMinLatitude s) (-90)); lia.
Qed.

Lemma scanMaxLatitude_le (s : Sector) : scanMaxLatitude s ≤ 90.
Proof.
  unfold scanMaxLatitude. destruct (Z.geb_spec (flooredMaxLatitude s) 90); lia.
Qed.

(** A band of latitude cells inside the grid and a range of longitude
    cells are all cells of the grid unless both are inhabited and the
    longitudes leave -180..180. *)
Lemma band_in_grid (c d a b : Z) :
  -90 ≤ c → d ≤ 90 →
  Forall (λ lat, Forall (cellRange lat) (fromTo a b)) (fromTo c d)
  ↔ d < c ∨ b < a ∨ (-180 ≤ a ∧ b ≤ 180).
Proof.
  intros Hc Hd. rewrite Forall_forall. setoid_rewrite Forall_forall.
  setoid_rewrite elem_of_fromTo. unfold cellRange. split.
  - intros H. destruct (decide (d < c)) as [|Hcd]; [by left|].
    destruct (decide (b < a)) as [|Hab]; [by right; left|].
    right; right. split.
    + apply (H c ltac:(lia) a ltac:(lia)).
    + apply (H c ltac:(lia) b ltac:(lia)).
  - intros H lat Hlat lon Hlon. lia.
Qed.

Lemma extraLongitudeBefore_nonneg (s : Sector) : 0 ≤ extraLongitudeBefore s.
Proof. rewrite extraLongitudeBefore_eq. lia. Qed.

Lemma extraLongitudeAfter_nonneg (s : Sector) : 0 ≤ extraLongitudeAfter s.
Proof. rewrite extraLongitudeAfter_eq. lia. Qed.

Lemma gridBeforePass_cases (data : Grid) (P : list MeasuredLocation)
    (s : Sector) (result : list MeasuredLocation) :
  gridOf data P →
  gridBeforePass data s result
  = if bool_decide (scanMinLatitude s ≤ scanMaxLatitude s
                    ∧ 360 < extraLongitudeBefore s)
    then Throw TypeError
    else Return (result ++ gridBeforeCopies P s).
Proof.
  intros Hg. rewrite (gridBeforePass_gridOf data P s result Hg).
  unfold gridBeforeCopies.
  pose proof (extraLongitudeBefore_nonneg s) as H0.
  pose proof (band_in_grid (scanMinLatitude s) (scanMaxLatitude s)
                (180 - extraLongitudeBefore s) 180
                (scanMinLatitude_ge s) (scanMaxLatitude_le s)) as Hband.
  destruct (decide (extraLongitudeBefore s = 0)) as [Hz|Hz].
  - rewrite !(bool_decide_eq_false_2 (_ ≠ 0)) by (intros H; by apply H).
    rewrite bool_decide_eq_false_2 by lia. by rewrite app_nil_r.
  - rewrite !(bool_decide_eq_true_2 (_ ≠ 0)) by done.
    destruct (decide (scanMinLatitude s ≤ scanMaxLatitude s
                      ∧ 360 < extraLongitudeBefore s)) as [Hc|Hc].
    + rewrite (bool_decide_eq_true_2 _ Hc).
      rewrite bool_decide_eq_false_2; [done|]. rewrite Hband. lia.
    + rewrite (bool_decide_eq_false_2 _ Hc).
      rewrite bool_decide_eq_true_2; [done|]. rewrite Hband. lia.
Qed.

Lemma gridAfterPass_cases (data : Grid) (P : list MeasuredLocation)
    (s : Sector) (result : list MeasuredLocation) :
  gridOf data P →
  gridAfterPass data s result
  = if bool_decide (scanMinLatitude s ≤ scanMaxLatitude s
                    ∧ 360 < extraLongitudeAfter s)
    then Throw TypeError
    else Return (result ++ gridAfterCopies P s).
Proof.
  intros Hg. rewrite (gridAfterPass_gridOf data P s result Hg).
  unfold gridAfterCopies.
  pose proof (extraLongitudeAfter_nonneg s) as H0.
  pose proof (band_in_grid (scanMinLatitude s) (scanMaxLatitude s)
                (-180) (-180 + extraLongitudeAfter s)
                (scanMinLatitude_ge s) (scanMaxLatitude_le s)) as Hband.
  destruct (decide (extraLongitudeAfter s = 0)) as [Hz|Hz].
  - rewrite !(bool_decide_eq_false_2 (_ ≠ 0)) by (intros H; by apply H).
    rewrite bool_decide_eq_false_2 by lia. by rewrite app_nil_r.
  - rewrite !(bool_decide_eq_true_2 (_ ≠ 0)) by done.
    destruct (decide (scanMinLatitude s ≤ scanMaxLatitude s
                      ∧ 360 < extraLongitudeAfter s)) as [Hc|Hc].
    + rewrite (bool_decide_eq_true_2 _ Hc).
      rewrite bool_decide_eq_false_2; [done|]. rewrite Hband. lia.
    + rewrite (bool_decide_eq_false_2 _ Hc).
      rewrite bool_decide_eq_true_2; [done|]. rewrite Hband. lia.
Qed.

(** The whole of [grid] on a grid of [P]. *)
Lemma grid_cases (data : Grid) (P : list MeasuredLocation) (s : Sector) :
  gridOf data P →
  grid data s
  = if bool_decide (scanMinLatitude s ≤ scanMaxLatitude s
                    ∧ (360 < extraLongitudeBefore s ∨ 360 < extraLongitudeAfter s))
    then Throw TypeError
    else Return ((gridPrimaryPoints P s ++ gridBeforeCopies P s)
                 ++ gridAfterCopies P s).
Proof.
  intros Hg. unfold grid.
  rewrite (gridPrimaryPass_gridOf data P s [] Hg), bind_Return.
  rewrite (gridBeforePass_cases data P s _ Hg).
  fold (gridPrimaryPoints P s). cbn [app].
  destruct (decide (scanMinLatitude s ≤ scanMaxLatitude s
                    ∧ 360 < extraLongitudeBefore s)) as [Hb|Hb].
  { rewrite (bool_decide_eq_true_2 _ Hb), bind_Throw.
    rewrite bool_decide_eq_true_2; [done|]. lia. }
  rewrite (bool_decide_eq_false_2 _ Hb), bind_Return.
  rewrite (gridAfterPass_cases data P s _ Hg).
  destruct (decide (scanMinLatitude s ≤ scanMaxLatitude s
                    ∧ 360 < extraLongitudeAfter s)) as [Ha|Ha].
  - rewrite (bool_decide_eq_true_2 _ Ha).
    rewrite bool_decide_eq_true_2; [done|]. lia.
  - rewrite (bool_decide_eq_false_2 _ Ha).
    rewrite bool_decide_eq_false_2; [done|]. lia.
Qed.

(** X4: on a grid made by [createGrid], [grid] throws a [TypeError]
    exactly when its latitude band has a cell and the floored longitude
    bounds reach more than a full turn past the antimeridian (below -540
    or above 540): the wrap pass then indexes a longitude cell the grid
    does not have.  In every other case [grid] returns. *)
Theorem grid_throws_beyond_full_turn (P : list MeasuredLocation) (data : Grid)
    (s : Sector) :
  createGrid P = Return data →
  (scanMinLatitude s ≤ scanMaxLatitude s
   ∧ (Qfloor (minLongitude s) < -540 ∨ 540 < Qfloor (maxLongitude s))
   → grid data s = Throw TypeError)
  ∧ (¬ (scanMinLatitude s ≤ scanMaxLatitude s
        ∧ (Qfloor (minLongitude s) < -540 ∨ 540 < Qfloor (maxLongitude s)))
     → ∃ result, grid data s = Return result).
Proof.
  intros [_ Hg]%createGrid_Return. rewrite (grid_cases data P s Hg).
  pose proof (extraLongitudeBefore_eq s) as Hb.
  pose proof (extraLongitudeAfter_eq s) as Ha.
  split.
  - intros Hc. rewrite bool_decide_eq_true_2; [done|]. lia.
  - intros Hc. rewrite bool_decide_eq_false_2; [by eexists|]. lia.
Qed.

(** The reference points: a query from longitude -541 throws, a query
    from longitude -540 returns. *)
Lemma grid_throws_beyond_full_turn_witness :
  ∃ data,
    createGrid locationsToUseForTest = Return data
    ∧ grid data beyondFullTurnSector = Throw TypeError
    ∧ ∃ result, grid data fullTurnSector = Return result.
Proof.
  destruct (createGrid_inGrid _ locationsToUseForTest_inGrid) as (data & Hdata & _).
  exists data. split; [exact Hdata|]. split.
  - apply (grid_throws_beyond_full_turn _ _ beyondFullTurnSector Hdata).
    split; [by vm_compute|left; by vm_compute].
  - apply (grid_throws_beyond_full_turn _ _ fullTurnSector Hdata).
    vm_compute. intros [_ [H|H]]; discriminate H.
Defined.

(** ** GRID and ARRAY on queries that wrap *)

(** The cell loops and a plain loop over the array push the same points
    when the callbacks agree on the points of the scanned cells and the
    array callback pushes nothing for the others. *)
Lemma cells_emit_Permutation (P : list MeasuredLocation) (lats lons : list Z)
    (emitG emitA : MeasuredLocation → list MeasuredLocation) :
  NoDup lats → NoDup lons →
  (∀ m, m ∈ P →
     if bool_decide (Qfloor (latitude m) ∈ lats ∧ Qfloor (longitude m) ∈ lons)
     then emitG m = emitA m else emitA m = []) →
  flat_map emitG (cellsPoints P lats lons) ≡ₚ flat_map emitA P.
Proof.
  intros Hlats Hlons. induction P as [|m P IH]; intros Hemit.
  - by rewrite cellsPoints_nil.
  - rewrite (cellsPoints_cons m P lats lons Hlats Hlons), flat_map_app.
    rewrite IH by (intros m' Hm'; apply Hemit; by apply list_elem_of_further).
    cbn [flat_map]. apply Permutation_app_tail.
    pose proof (Hemit m (list_elem_of_here _ _)) as Hm.
    destruct (bool_decide (Qfloor (latitude m) ∈ lats ∧ Qfloor (longitude m) ∈ lons)).
    + cbn [flat_map]. by rewrite app_nil_r, Hm.
    + by rewrite Hm.
Qed.

Lemma int_box_contains (a b c d : Z) (lat lon : Q) :
  containsLocation (mkSector (inject_Z a) (inject_Z b) (inject_Z c) (inject_Z d))
    lat lon = true →
  a ≤ Qfloor lat ≤ b ∧ c ≤ Qfloor lon ≤ d.
Proof.
  intros (H1 & H2 & H3 & H4)%containsLocation_iff. cbn in H1, H2, H3, H4.
  apply Qfloor_resp_le in H1, H2, H3, H4. rewrite !Qfloor_Z in *. lia.
Qed.

Lemma floor_ge_le (n : Z) (x : Q) : n ≤ Qfloor x → (inject_Z n <= x)%Q.
Proof.
  intros H. apply Qle_trans with (inject_Z (Qfloor x)); [|apply Qfloor_le].
  by rewrite <- Zle_Qle.
Qed.

(** On a latitude of -90..90 the clamped and the unclamped floored
    latitude bounds give the same test. *)
Lemma clamped_latitude_test (s : Sector) (x : Q) :
  (-90 <= x)%Q → (x <= 90)%Q →
  Qle_bool (inject_Z (scanMinLatitude s)) x
  = Qle_bool (inject_Z (flooredMinLatitude s)) x
  ∧ Qle_bool x (inject_Z (scanMaxLatitude s))
    = Qle_bool x (inject_Z (flooredMaxLatitude s)).
Proof.
  intros Hlo Hhi. unfold scanMinLatitude, scanMaxLatitude. split.
  - destruct (Z.leb_spec (flooredMinLatitude s) (-90)) as [H|H]; [|done].
    rewrite (proj2 (Qle_bool_iff _ _)) by exact Hlo.
    symmetry. apply Qle_bool_iff.
    apply Qle_trans with (inject_Z (-90)); [by rewrite <- Zle_Qle|exact Hlo].
  - destruct (Z.geb_spec (flooredMaxLatitude s) 90) as [H|H]; [|done].
    rewrite (proj2 (Qle_bool_iff _ _)) by exact Hhi.
    symmetry. apply Qle_bool_iff.
    apply Qle_trans with (inject_Z 90); [exact Hhi|by rewrite <- Zle_Qle].
Qed.

Lemma wrap_sectors_agree (s : Sector) (m : MeasuredLocation) :
  inGrid m → (latitude m <= 90)%Q →
  containsLocation (gridBeforeSector s) (latitude m) (longitude m)
  = containsLocation (arrayBeforeSector s) (latitude m) (longitude m)
  ∧ containsLocation (gridAfterSector s) (latitude m) (longitude m)
    = containsLocation (arrayAfterSector s) (latitude m) (longitude m).
Proof.
  intros [[Hlat _] _] Hhi.
  destruct (clamped_latitude_test s (latitude m)) as [E1 E2];
    [by apply (floor_ge_le (-90))|done|].
  unfold containsLocation; cbn. by rewrite E1, E2.
Qed.

Lemma wrap_pass_Permutation (P : list MeasuredLocation) (s : Sector) :
  Forall inGrid P → Forall (λ p, (latitude p <= 90)%Q) P →
  gridBeforeCopies P s
  ≡ₚ (if bool_decide (extraLongitudeBefore s ≠ 0)
      then flat_map (shiftIn (arrayBeforeSector s) (-360)) P else [])
  ∧ gridAfterCopies P s
    ≡ₚ (if bool_decide (extraLongitudeAfter s ≠ 0)
        then flat_map (shiftIn (arrayAfterSector s) 360) P else []).
Proof.
  intros HP Hlat. rewrite Forall_forall in HP, Hlat.
  unfold gridBeforeCopies, gridAfterCopies. split.
  - case_bool_decide; [|done].
    apply cells_emit_Permutation; [apply NoDup_seqZ..|].
    intros m Hm. destruct (wrap_sectors_agree s m (HP m Hm) (Hlat m Hm)) as [E _].
    unfold shiftIn. rewrite <- E. case_bool_decide as Hcell; [done|].
    destruct (containsLocation (gridBeforeSector s) (latitude m) (longitude m))
      eqn:Hc; [|done].
    exfalso. apply Hcell. unfold gridBeforeSector in Hc.
    change 180%Q with (inject_Z 180) in Hc.
    apply int_box_contains in Hc. by rewrite !elem_of_fromTo.
  - case_bool_decide; [|done].
    apply cells_emit_Permutation; [apply NoDup_seqZ..|].
    intros m Hm. destruct (wrap_sectors_agree s m (HP m Hm) (Hlat m Hm)) as [_ E].
    unfold shiftIn. rewrite <- E. case_bool_decide as Hcell; [done|].
    destruct (containsLocation (gridAfterSector s) (latitude m) (longitude m))
      eqn:Hc; [|done].
    exfalso. apply Hcell. unfold gridAfterSector in Hc.
    change (-180)%Q with (inject_Z (-180)) in Hc.
    apply int_box_contains in Hc. by rewrite !elem_of_fromTo.
Qed.

(** ** What the wrap passes push *)

Lemma flat_map_shiftIn (sector : Sector) (d : Q) (l : list MeasuredLocation) :
  flat_map (shiftIn sector d) l = shiftedCopies d sector l.
Proof.
  unfold shiftedCopies. induction l as [|e l IH]; [done|].
  cbn [flat_map List.filter]. rewrite IH. unfold shiftIn, shifted.
  by destruct (containsLocation sector (latitude e) (longitude e)).
Qed.

Lemma elem_of_shiftedCopies (d : Q) (sector : Sector) (P : list MeasuredLocation)
    (q : MeasuredLocation) :
  q ∈ shiftedCopies d sector P
  ↔ ∃ e, e ∈ P
      ∧ containsLocation sector (latitude e) (longitude e) = true
      ∧ latitude q = latitude e
      ∧ longitude q = (d + longitude e)%Q
      ∧ measure q = measure e.
Proof.
  unfold shiftedCopies. rewrite list_elem_of_fmap.
  setoid_rewrite list_elem_of_In. setoid_rewrite List.filter_In. split.
  - intros (e & -> & He & Hc). by exists e.
  - intros (e & He & Hc & H1 & H2 & H3). exists e. split; [|done].
    destruct q; cbn in *. by subst.
Qed.

(** The cell loops of a wrap pass of [grid] meet every point of the
    auxiliary sector: its bounds are the bounds of the loops. *)
Lemma gridCopies_Permutation (P : list MeasuredLocation) (s : Sector) :
  gridBeforeCopies P s
  ≡ₚ (if bool_decide (0 < extraLongitudeBefore s)
      then shiftedCopies (-360) (gridBeforeSector s) P else [])
  ∧ gridAfterCopies P s
    ≡ₚ (if bool_decide (0 < extraLongitudeAfter s)
        then shiftedCopies 360 (gridAfterSector s) P else []).
Proof.
  pose proof (extraLongitudeBefore_nonneg s) as Hb.
  pose proof (extraLongitudeAfter_nonneg s) as Ha.
  unfold gridBeforeCopies, gridAfterCopies. split.
  - destruct (decide (extraLongitudeBefore s = 0)) as [Hz|Hz].
    { rewrite bool_decide_eq_false_2 by (intros H; by apply H).
      by rewrite bool_decide_eq_false_2 by lia. }
    rewrite bool_decide_eq_true_2 by done.
    rewrite bool_decide_eq_true_2 by lia.
    rewrite <- flat_map_shiftIn.
    apply cells_emit_Permutation; [apply NoDup_seqZ..|].
    intros m Hm. case_bool_decide as Hcell; [done|]. unfold shiftIn.
    destruct (containsLocation (gridBeforeSector s) (latitude m) (longitude m))
      eqn:Hc; [|done].
    exfalso. apply Hcell. unfold gridBeforeSector in Hc.
    change 180%Q with (inject_Z 180) in Hc.
    apply int_box_contains in Hc. by rewrite !elem_of_fromTo.
  - destruct (decide (extraLongitudeAfter s = 0)) as [Hz|Hz].
    { rewrite bool_decide_eq_false_2 by (intros H; by apply H).
      by rewrite bool_decide_eq_false_2 by lia. }
    rewrite bool_decide_eq_true_2 by done.
    rewrite bool_decide_eq_true_2 by lia.
    rewrite <- flat_map_shiftIn.
    apply cells_emit_Permutation; [apply NoDup_seqZ..|].
    intros m Hm. case_bool_decide as Hcell; [done|]. unfold shiftIn.
    destruct (containsLocation (gridAfterSector s) (latitude m) (longitude m))
      eqn:Hc; [|done].
    exfalso. apply Hcell. unfold gridAfterSector in Hc.
    change (-180)%Q with (inject_Z (-180)) in Hc.
    apply int_box_contains in Hc. by rewrite !elem_of_fromTo.
Qed.

(** C5: what the wrap passes push.  When the wrap-before amount is
    strictly positive, the wrap-before pass of [array] appends to the
    result, in the order of the data, one new point for every stored point
    inside the auxiliary sector [180 - before, 180], and nothing else; the
    new point has the latitude and the measure of the stored point and the
    longitude [-360 + longitude], that is [longitude - 360].  When the
    amount is zero the pass appends nothing.  The wrap-after pass does the
    same over [-180, -180 + after] with [360 + longitude].  This holds for
    every array and every region.  On a grid made by [createGrid] the two
    passes of [grid] append a rearrangement of the same copies (for the
    auxiliary sector with the clamped latitude bounds), unless the pass
    throws, which it does exactly when its latitude band has a cell and
    its amount exceeds 360. *)
Theorem wrap_passes_emit_shifted_copies (P : list MeasuredLocation)
    (s : Sector) (result : list MeasuredLocation) :
  arrayBeforePass P s result
  = result ++ (if bool_decide (0 < extraLongitudeBefore s)
               then shiftedCopies (-360) (arrayBeforeSector s) P else [])
  ∧ arrayAfterPass P s result
    = result ++ (if bool_decide (0 < extraLongitudeAfter s)
                 then shiftedCopies 360 (arrayAfterSector s) P else [])
  ∧ (∀ data, createGrid P = Return data →
       if bool_decide (scanMinLatitude s ≤ scanMaxLatitude s
                       ∧ 360 < extraLongitudeBefore s)
       then gridBeforePass data s result = Throw TypeError
       else ∃ emitted,
              gridBeforePass data s result = Return (result ++ emitted)
              ∧ emitted ≡ₚ (if bool_decide (0 < extraLongitudeBefore s)
                            then shiftedCopies (-360) (gridBeforeSector s) P
                            else []))
  ∧ (∀ data, createGrid P = Return data →
       if bool_decide (scanMinLatitude s ≤ scanMaxLatitude s
                       ∧ 360 < extraLongitudeAfter s)
       then gridAfterPass data s result = Throw TypeError
       else ∃ emitted,
              gridAfterPass data s result = Return (result ++ emitted)
              ∧ emitted ≡ₚ (if bool_decide (0 < extraLongitudeAfter s)
                            then shiftedCopies 360 (gridAfterSector s) P
                            else []))
  ∧ (∀ d sector q,
       q ∈ shiftedCopies d sector P
       ↔ ∃ e, e ∈ P
           ∧ containsLocation sector (latitude e) (longitude e) = true
           ∧ latitude q = latitude e
           ∧ longitude q = (d + longitude e)%Q
           ∧ measure q = measure e)
  ∧ (∀ x : Q, (-360 + x == x - 360)%Q ∧ (360 + x == x + 360)%Q).
Proof.
  pose proof (extraLongitudeBefore_nonneg s) as Hb.
  pose proof (extraLongitudeAfter_nonneg s) as Ha.
  destruct (gridCopies_Permutation P s) as [HgB HgA].
  split; [|split; [|split; [|split; [|split]]]].
  - unfold arrayBeforePass. rewrite flat_map_shiftIn.
    destruct (decide (extraLongitudeBefore s = 0)) as [Hz|Hz].
    + rewrite bool_decide_eq_false_2 by (intros H; by apply H).
      rewrite bool_decide_eq_false_2 by lia. by rewrite app_nil_r.
    + rewrite bool_decide_eq_true_2 by done.
      by rewrite bool_decide_eq_true_2 by lia.
  - unfold arrayAfterPass. rewrite flat_map_shiftIn.
    destruct (decide (extraLongitudeAfter s = 0)) as [Hz|Hz].
    + rewrite bool_decide_eq_false_2 by (intros H; by apply H).
      rewrite bool_decide_eq_false_2 by lia. by rewrite app_nil_r.
    + rewrite bool_decide_eq_true_2 by done.
      by rewrite bool_decide_eq_true_2 by lia.
  - intros data [_ Hg]%createGrid_Return.
    rewrite (gridBeforePass_cases data P s result Hg).
    destruct (bool_decide (scanMinLatitude s ≤ scanMaxLatitude s
                           ∧ 360 < extraLongitudeBefore s)); [done|].
    by exists (gridBeforeCopies P s).
  - intros data [_ Hg]%createGrid_Return.
    rewrite (gridAfterPass_cases data P s result Hg).
    destruct (bool_decide (scanMinLatitude s ≤ scanMaxLatitude s
                           ∧ 360 < extraLongitudeAfter s)); [done|].
    by exists (gridAfterCopies P s).
  - intros d sector q. apply elem_of_shiftedCopies.
  - intros x. split; ring.
Qed.

(** The reference points and a query that wraps on both sides: in both
    structures the wrap-before pass pushes seven copies and the wrap-after
    pass five. *)
Lemma wrap_passes_emit_shifted_copies_witness :
  length (arrayBeforePass locationsToUseForTest bothWrapSector []) = 7%nat
  ∧ length (arrayAfterPass locationsToUseForTest bothWrapSector []) = 5%nat
  ∧ mkMeasuredLocation 0 (-360 + 179.9) 10
    ∈ arrayBeforePass locationsToUseForTest bothWrapSector []
  ∧ ∃ data before after,
      createGrid locationsToUseForTest = Return data
      ∧ gridBeforePass data bothWrapSector [] = Return before
      ∧ gridAfterPass data bothWrapSector [] = Return after
      ∧ length before = 7%nat ∧ length after = 5%nat.
Proof.
  destruct (wrap_passes_emit_shifted_copies locationsToUseForTest bothWrapSector [])
    as (HaB & HaA & HgB & HgA & Hin & _).
  split; [by rewrite HaB|]. split; [by rewrite HaA|].
  split.
  { rewrite HaB. cbn [app]. rewrite bool_decide_eq_true_2 by (by vm_compute).
    apply Hin. exists (mkMeasuredLocation 0 179.9 10).
    split; [|by repeat split].
    unfold locationsToUseForTest. do 9 apply list_elem_of_further.
    apply list_elem_of_here. }
  destruct (createGrid_inGrid _ locationsToUseForTest_inGrid) as (data & Hdata & _).
  specialize (HgB data Hdata). specialize (HgA data Hdata).
  rewrite bool_decide_eq_false_2 in HgB
    by (vm_compute; intros [_ H]; discriminate H).
  rewrite bool_decide_eq_false_2 in HgA
    by (vm_compute; intros [_ H]; discriminate H).
  destruct HgB as (before & HB & HpB). destruct HgA as (after & HA & HpA).
  exists data, before, after. cbn [app] in HB, HA.
  split; [exact Hdata|]. split; [exact HB|]. split; [exact HA|].
  split.
  - by rewrite (Permutation_length HpB).
  - by rewrite (Permutation_length HpA).
Defined.

(** X5: GRID and ARRAY agree on wrapping queries too.  When every point
    of [P] has a latitude of at most 90 and the floored longitude bounds
    of the region stay within a full turn of the antimeridian
    (-540..540), [grid] on the grid of [P] returns, and what it returns is
    a rearrangement of what [array] returns on [P]; so are the answers of
    [filter] in the two structures. *)
Theorem grid_array_agree_within_full_turn (P : list MeasuredLocation)
    (data : Grid) (s : Sector) :
  createGrid P = Return data →
  Forall (λ p, (latitude p <= 90)%Q) P →
  -540 ≤ Qfloor (minLongitude s) → Qfloor (maxLongitude s) ≤ 540 →
  ∃ lg fg,
    grid data s = Return lg ∧ lg ≡ₚ array P s
    ∧ filter (GridFilter data) s = Return fg
    ∧ fg ≡ₚ JSArray.sort compareLocations (array P s)
    ∧ filter (ArrayFilter P) s
      = Return (JSArray.sort compareLocations (array P s)).
Proof.
  intros [HP Hg]%createGrid_Return Hlat Hmin Hmax.
  pose proof (extraLongitudeBefore_eq s) as Hb.
  pose proof (extraLongitudeAfter_eq s) as Ha.
  assert (grid data s
          = Return ((gridPrimaryPoints P s ++ gridBeforeCopies P s)
                    ++ gridAfterCopies P s)) as Hgrid.
  { rewrite (grid_cases data P s Hg). rewrite bool_decide_eq_false_2; [done|]. lia. }
  destruct (wrap_pass_Permutation P s HP Hlat) as [Hbefore Hafter].
  assert ((gridPrimaryPoints P s ++ gridBeforeCopies P s) ++ gridAfterCopies P s
          ≡ₚ array P s) as Hperm.
  { unfold array, arrayAfterPass, arrayBeforePass, arrayPrimaryPass.
    rewrite Hbefore, Hafter. unfold gridPrimaryPoints.
    rewrite (primary_pass_Permutation P s HP). cbn [app].
    by repeat case_bool_decide; rewrite ?app_nil_r. }
  eexists _, _. split; [exact Hgrid|]. split; [exact Hperm|].
  unfold filter. rewrite Hgrid, !bind_Return. split; [done|].
  split; [|done]. by rewrite !sort_Permutation.
Qed.

(** The reference points and the antimeridian query of the unit tests:
    twelve points in either structure. *)
Lemma grid_array_agree_within_full_turn_witness :
  ∃ data lg,
    createGrid locationsToUseForTest = Return data
    ∧ grid data antimeridianSector = Return lg
    ∧ lg ≡ₚ array locationsToUseForTest antimeridianSector
    ∧ length (array locationsToUseForTest antimeridianSector) = 12%nat.
Proof.
  destruct (createGrid_inGrid _ locationsToUseForTest_inGrid) as (data & Hdata & _).
  destruct (grid_array_agree_within_full_turn locationsToUseForTest data
              antimeridianSector Hdata)
    as (lg & fg & Hlg & Hperm & _).
  - unfold locationsToUseForTest.
    repeat (constructor; [by vm_compute|]). constructor.
  - by vm_compute.
  - by vm_compute.
  - exists data, lg. split; [exact Hdata|]. split; [exact Hlg|].
    split; [exact Hperm|reflexivity].
Defined.

(** ** Where the returned points lie *)

Lemma elem_of_keepIn (s : Sector) (e q : MeasuredLocation) :
  q ∈ keepIn s e ↔ q = e ∧ containsLocation s (latitude e) (longitude e) = true.
Proof.
  unfold keepIn. destruct (containsLocation _ _ _).
  - rewrite list_elem_of_singleton. tauto.
  - rewrite elem_of_nil. split; [done|]. by intros [_ ?].
Qed.

Lemma scanLatitude_floored (s : Sector) :
  flooredMinLatitude s ≤ scanMinLatitude s ∧ scanMaxLatitude s ≤ flooredMaxLatitude s.
Proof.
  unfold scanMinLatitude, scanMaxLatitude.
  destruct (Z.leb_spec (flooredMinLatitude s) (-90)),
    (Z.geb_spec (flooredMaxLatitude s) 90); lia.
Qed.

(** A point pushed by a wrap-before callback, for an auxiliary sector
    whose latitude bounds lie within the floored ones. *)
Lemma before_copy_westCopy (P V : list MeasuredLocation) (s : Sector)
    (lo hi : Z) (q : MeasuredLocation) :
  (∀ e, e ∈ V → e ∈ P) →
  extraLongitudeBefore s ≠ 0 →
  flooredMinLatitude s ≤ lo → hi ≤ flooredMaxLatitude s →
  q ∈ flat_map (shiftIn (mkSector (inject_Z lo) (inject_Z hi)
                           (inject_Z (180 - extraLongitudeBefore s)) 180) (-360)) V →
  westCopy P s q.
Proof.
  intros HV Hz Hlo Hhi (e & He & Hq)%elem_of_flat_map.
  apply elem_of_shiftIn in Hq as [-> Hc].
  apply containsLocation_iff in Hc as (H1 & H2 & H3 & H4). cbn in H1, H2, H3, H4.
  exists e. split; [by apply HV|]. split; [done|]. cbn.
  pose proof (extraLongitudeBefore_eq s) as Hb.
  assert (inject_Z (180 - extraLongitudeBefore s)
          == 360 + inject_Z (Qfloor (minLongitude s)))%Q as E.
  { replace (180 - extraLongitudeBefore s) with (360 + Qfloor (minLongitude s)) by lia.
    by rewrite inject_Z_plus. }
  rewrite E in H3.
  unfold flooredMinLatitude, flooredMaxLatitude in Hlo, Hhi.
  rewrite Zle_Qle in Hlo, Hhi.
  repeat split; lra.
Qed.

Lemma after_copy_eastCopy (P V : list MeasuredLocation) (s : Sector)
    (lo hi : Z) (q : MeasuredLocation) :
  (∀ e, e ∈ V → e ∈ P) →
  extraLongitudeAfter s ≠ 0 →
  flooredMinLatitude s ≤ lo → hi ≤ flooredMaxLatitude s →
  q ∈ flat_map (shiftIn (mkSector (inject_Z lo) (inject_Z hi)
                           (-180) (inject_Z (-180 + extraLongitudeAfter s))) 360) V →
  eastCopy P s q.
Proof.
  intros HV Hz Hlo Hhi (e & He & Hq)%elem_of_flat_map.
  apply elem_of_shiftIn in Hq as [-> Hc].
  apply containsLocation_iff in Hc as (H1 & H2 & H3 & H4). cbn in H1, H2, H3, H4.
  exists e. split; [by apply HV|]. split; [done|]. cbn.
  pose proof (extraLongitudeAfter_eq s) as Ha.
  assert (inject_Z (-180 + extraLongitudeAfter s)
          == -360 + inject_Z (Qfloor (maxLongitude s)))%Q as E.
  { replace (-180 + extraLongitudeAfter s) with (-360 + Qfloor (maxLongitude s)) by lia.
    by rewrite inject_Z_plus. }
  rewrite E in H4.
  unfold flooredMinLatitude, flooredMaxLatitude in Hlo, Hhi.
  rewrite Zle_Qle in Hlo, Hhi.
  repeat split; lra.
Qed.

Lemma array_points (P : list MeasuredLocation) (s : Sector) (q : MeasuredLocation) :
  q ∈ array P s →
  (q ∈ P ∧ containsLocation s (latitude q) (longitude q) = true)
  ∨ westCopy P s q ∨ eastCopy P s q.
Proof.
  unfold array, arrayAfterPass, arrayBeforePass, arrayPrimaryPass. cbn [app].
  intros Hq.
  assert (q ∈ flat_map (keepIn s) P
          ∨ (extraLongitudeBefore s ≠ 0
             ∧ q ∈ flat_map (shiftIn (arrayBeforeSector s) (-360)) P)
          ∨ (extraLongitudeAfter s ≠ 0
             ∧ q ∈ flat_map (shiftIn (arrayAfterSector s) 360) P)) as Hcases.
  { destruct (decide (extraLongitudeBefore s ≠ 0)) as [Hb|Hb],
      (decide (extraLongitudeAfter s ≠ 0)) as [Ha|Ha];
      rewrite ?(bool_decide_eq_true_2 _ Hb), ?(bool_decide_eq_false_2 _ Hb),
        ?(bool_decide_eq_true_2 _ Ha), ?(bool_decide_eq_false_2 _ Ha) in Hq;
      rewrite ?elem_of_app in Hq; tauto. }
  destruct Hcases as [Hp|[[Hz Hb]|[Hz Ha]]].
  - left. apply elem_of_flat_map in Hp as (e & He & Hk).
    by apply elem_of_keepIn in Hk as [-> Hc].
  - right; left. unfold arrayBeforeSector in Hb.
    by eapply (before_copy_westCopy P P s).
  - right; right. unfold arrayAfterSector in Ha.
    by eapply (after_copy_eastCopy P P s).
Qed.

Lemma grid_points (data : Grid) (P : list MeasuredLocation) (s : Sector)
    (raw : list MeasuredLocation) (q : MeasuredLocation) :
  gridOf data P → grid data s = Return raw → q ∈ raw →
  (q ∈ P ∧ containsLocation s (latitude q) (longitude q) = true)
  ∨ westCopy P s q ∨ eastCopy P s q.
Proof.
  intros Hg Hraw Hq. rewrite (grid_cases data P s Hg) in Hraw.
  case_bool_decide; [done|]. injection Hraw as <-.
  destruct (scanLatitude_floored s) as [Hlo Hhi].
  apply elem_of_app in Hq as [[Hp|Hb]%elem_of_app|Ha].
  - left. apply elem_of_flat_map in Hp as (e & He & Hk).
    apply elem_of_keepIn in Hk as [-> Hc].
    by apply elem_of_cellsPoints in He as [He _].
  - right; left. unfold gridBeforeCopies in Hb.
    case_bool_decide as Hz; [|by apply elem_of_nil in Hb].
    unfold gridBeforeSector in Hb.
    eapply (before_copy_westCopy P _ s); [|done..].
    by intros e [He _]%elem_of_cellsPoints.
  - right; right. unfold gridAfterCopies in Ha.
    case_bool_decide as Hz; [|by apply elem_of_nil in Ha].
    unfold gridAfterSector in Ha.
    eapply (after_copy_eastCopy P _ s); [|done..].
    by intros e [He _]%elem_of_cellsPoints.
Qed.

(** X6: every point that [filter] returns, in either structure, is a
    point of the data inside the region, or a copy of a point of the data
    moved by -360 degrees whose longitude lies between the floored west
    bound of the region and -180, or a copy moved by +360 degrees whose
    longitude lies between 180 and the floored east bound; the latitude of
    a copy lies between the floored latitude bounds of the region.  (A
    copy need not lie inside the region itself: the wrap-before pass does
    not look at [maxLongitude], nor the wrap-after pass at
    [minLongitude].) *)
Theorem filter_answer_points (P : list MeasuredLocation) (dataStructure : string)
    (this : GeographicalFilter.t) (s : Sector) (result : list MeasuredLocation) :
  new P dataStructure = Return this →
  filter this s = Return result →
  ∀ q, q ∈ result →
    (q ∈ P ∧ containsLocation s (latitude q) (longitude q) = true)
    ∨ westCopy P s q ∨ eastCopy P s q.
Proof.
  intros Hnew%new_builtFrom Hres q Hq.
  rewrite filter_collected in Hres.
  destruct (collected this s) as [raw|e] eqn:Hraw; [|done].
  rewrite bind_Return in Hres. injection Hres as <-.
  rewrite sort_Permutation in Hq.
  destruct this as [data|data]; cbn in Hnew, Hraw.
  - destruct Hnew as [Hg _]. by eapply grid_points.
  - subst data. injection Hraw as <-. by apply array_points.
Qed.

(** The reference points in ARRAY mode and a query that lies west of the
    antimeridian altogether (from -225 to -200): the answer holds a copy
    at longitude -180.1, east of the region. *)
Lemma filter_answer_points_witness :
  ∃ result,
    filter (ArrayFilter locationsToUseForTest) (mkSector (-30) 30 (-225) (-200))
    = Return result
    ∧ mkMeasuredLocation 0 (-360 + 179.9) 10 ∈ result
    ∧ westCopy locationsToUseForTest (mkSector (-30) 30 (-225) (-200))
        (mkMeasuredLocation 0 (-360 + 179.9) 10).
Proof.
  destruct (filter (ArrayFilter locationsToUseForTest) (mkSector (-30) 30 (-225) (-200)))
    as [result|e] eqn:H; [|by vm_compute in H].
  assert (mkMeasuredLocation 0 (-360 + 179.9) 10 ∈ result) as Hin.
  { vm_compute in H. injection H as <-. apply list_elem_of_here. }
  exists result. split; [done|]. split; [exact Hin|].
  destruct (filter_answer_points locationsToUseForTest "ARRAY" _ _ _ eq_refl H _ Hin)
    as [[_ Hc]|[Hw|He]].
  - by vm_compute in Hc.
  - exact Hw.
  - exfalso. destruct He as (e & _ & _ & H180 & _). by vm_compute in H180.
Defined.

(** ** The QUANTILES table *)

Lemma fraction_range (i k : nat) :
  (i < k)%nat → (0 <= fraction i k)%Q ∧ (fraction i k < 1)%Q.
Proof.
  intros Hik. unfold fraction.
  assert (0 < inject_Z (Z.of_nat k))%Q as Hk.
  { change 0%Q with (inject_Z 0). rewrite <- Zlt_Qlt. lia. }
  split.
  - apply Qle_shift_div_l; [exact Hk|]. rewrite Qmult_0_l.
    change 0%Q with (inject_Z 0). rewrite <- Zle_Qle. lia.
  - apply Qlt_shift_div_r; [exact Hk|]. rewrite Qmult_1_l.
    rewrite <- Zlt_Qlt. lia.
Qed.

(** The index [Math.floor(index / scale.length * data.length)] is an
    index of [data]. *)
Lemma quantile_index_in_range (i k n : nat) :
  (i < k)%nat → (0 < n)%nat →
  (Z.to_nat (Qfloor (fraction i k * inject_Z (Z.of_nat n))) < n)%nat.
Proof.
  intros Hik Hn. destruct (fraction_range i k Hik) as [H0 H1].
  assert (0 < inject_Z (Z.of_nat n))%Q as HN.
  { change 0%Q with (inject_Z 0). rewrite <- Zlt_Qlt. lia. }
  set (x := (fraction i k * inject_Z (Z.of_nat n))%Q).
  assert (0 <= x)%Q as Hx0.
  { apply Qmult_le_0_compat; [exact H0|by apply Qlt_le_weak]. }
  assert (x < inject_Z (Z.of_nat n))%Q as Hxn.
  { unfold x. rewrite <- (Qmult_1_l (inject_Z (Z.of_nat n))) at 2.
    by apply Qmult_lt_compat_r. }
  assert (0 ≤ Qfloor x) as Hf0.
  { apply Qfloor_resp_le in Hx0. by change (Qfloor 0) with 0 in Hx0. }
  assert (Qfloor x < Z.of_nat n) as Hfn.
  { rewrite Zlt_Qlt. eapply Qle_lt_trans; [apply Qfloor_le|exact Hxn]. }
  lia.
Qed.

(** The loop of the QUANTILES branch does not throw; every round stores
    its color under the one key [NaN], so the last color is what stays. *)
Lemma quantile_loop (k : nat) (data : list MeasuredLocation)
    (colors : list string) (index : nat) (gradient : Gradient) :
  (0 < length data)%nat → (index + length colors ≤ k)%nat →
  forEachIndexed (λ gradient color index,
    let fractionDecidingTheScale := fraction index k in
    let i := Qfloor (fractionDecidingTheScale * inject_Z (Z.of_nat (length data))) in
    match data !! Z.to_nat i with
    | None => Throw TypeError
    | Some _ => Return (<[StopNaN := color]> gradient)
    end) colors index gradient
  = Return (match last colors with
            | Some color => <[StopNaN := color]> gradient
            | None => gradient
            end).
Proof.
  intros Hn. revert index gradient.
  induction colors as [|color colors IH]; intros index gradient Hk; [done|].
  cbn [forEachIndexed]. cbn zeta.
  destruct (lookup_lt_is_Some_2 data
              (Z.to_nat (Qfloor (fraction index k * inject_Z (Z.of_nat (length data))))))
    as [point Hpoint].
  { apply quantile_index_in_range; [simpl in Hk; lia|done]. }
  rewrite Hpoint, bind_Return, IH by (simpl in Hk |- *; lia).
  destruct colors as [|color' colors]; [done|].
  rewrite last_cons_cons.
  destruct (last (color' :: colors)) as [c|] eqn:Hlast;
    [|by apply last_None in Hlast].
  by rewrite insert_insert_eq.
Qed.

(** X7: with the QUANTILES interval type, a non-empty scale and at least
    as many points as colors, [setGradient] does not throw and the table
    it stores has a single stop: the key [NaN], holding the last color of
    the scale.  (The stop is computed from [data[i].intensity], a property
    the points do not have.) *)
Theorem quantiles_gradient_single_NaN_stop (this : t) (ref : Ref) (σ : Store)
    (points : list MeasuredLocation) :
  _intervalType this = QUANTILES → σ !! ref = Some points →
  _scale this ≠ [] → (length (_scale this) ≤ length points)%nat →
  ∃ color,
    last (_scale this) = Some color
    ∧ gradientOf (setGradient this (Some ref) σ) = Return {[StopNaN := color]}.
Proof.
  intros Hq Hσ Hscale Hlen.
  destruct (last (_scale this)) as [color|] eqn:Hcolor;
    [|by apply last_None in Hcolor].
  exists color. split; [done|].
  unfold setGradient. rewrite Hq, Hσ.
  pose proof (sort_length compareMeasures points) as Hl.
  assert (0 < length (_scale this))%nat as Hk.
  { destruct (_scale this); [done|simpl; lia]. }
  destruct (last (JSArray.sort compareMeasures points)) as [lastPoint|] eqn:Hlast.
  - rewrite (proj2 (Nat.leb_le _ _)) by lia.
    unfold quantileStops.
    rewrite quantile_loop by (simpl; lia). rewrite Hcolor.
    by rewrite insert_empty.
  - apply last_None in Hlast. rewrite Hlast in Hl. simpl in Hl. lia.
Qed.

(** The quantile layer with its five colors and the nineteen reference
    points: the table is the single stop [NaN], red. *)
Lemma quantiles_gradient_single_NaN_stop_witness :
  ∃ color,
    last (_scale quantilesLayer) = Some color
    ∧ color = "red"
    ∧ gradientOf (setGradient quantilesLayer (Some 1%positive)
                    {[1%positive := locationsToUseForTest]})
      = Return {[StopNaN := color]}.
Proof.
  destruct (quantiles_gradient_single_NaN_stop quantilesLayer 1%positive
              {[1%positive := locationsToUseForTest]} locationsToUseForTest)
    as (color & Hcolor & Hg).
  - reflexivity.
  - reflexivity.
  - discriminate.
  - simpl. lia.
  - exists color. split; [exact Hcolor|]. split; [|exact Hg].
    vm_compute in Hcolor. by injection Hcolor as <-.
Defined.

(** ** The setters *)

(** X8: assigning to [intervalType] or to [scale] never touches the
    store and always stores the new value in the layer.  When the interval
    type of the layer is then CONTINUOUS the assignment completes and the
    gradient is the CONTINUOUS table of the layer's scale; when it is
    QUANTILES the assignment throws a [TypeError] (the setter calls
    [setGradient] without data) and the layer keeps the gradient it had,
    beside the new value. *)
Theorem assignments_rebuild_or_throw (this : t) (σ : Store) :
  (∀ intervalType,
     let '(this', σ', completion) := assign_intervalType this intervalType σ in
     σ' = σ ∧ _intervalType this' = intervalType ∧ _scale this' = _scale this
     ∧ match intervalType with
       | CONTINUOUS =>
           completion = Return tt
           ∧ continuousStops (_scale this) ∅ = Return (_gradient this')
       | QUANTILES =>
           completion = Throw TypeError ∧ _gradient this' = _gradient this
       end)
  ∧ (∀ scale,
       let '(this', σ', completion) := assign_scale this scale σ in
       σ' = σ ∧ _scale this' = scale ∧ _intervalType this' = _intervalType this
       ∧ match _intervalType this with
         | CONTINUOUS =>
             completion = Return tt
             ∧ continuousStops scale ∅ = Return (_gradient this')
         | QUANTILES =>
             completion = Throw TypeError ∧ _gradient this' = _gradient this
         end).
Proof.
  split.
  - intros [|]; unfold assign_intervalType.
    + destruct (setGradient_CONTINUOUS (with_intervalType this CONTINUOUS) None σ eq_refl)
        as (gradient & Hrun & ->).
      by repeat split.
    + by repeat split.
  - intros scale. unfold assign_scale.
    destruct (_intervalType this) eqn:Hi.
    + destruct (setGradient_CONTINUOUS (with_scale this scale) None σ Hi)
        as (gradient & Hrun & ->).
      by repeat split.
    + unfold setGradient. cbn [with_scale _intervalType]. rewrite Hi.
      by repeat split.
Qed.

(** ** The constructor of the layer *)

Lemma newLayer_Return (displayName : string) (ref : Ref)
    (usedDataStructure : option string) (retrievals absent : list string)
    (σ σ' : Store) (points : list MeasuredLocation) (layer : t) :
  σ !! ref = Some points →
  newLayer displayName ref usedDataStructure retrievals absent σ
  = (σ', Return layer) →
  ∃ dataStructure filter gradient,
    GeographicalFilter.new points dataStructure = Return filter
    ∧ continuousStops defaultScale ∅ = Return gradient
    ∧ σ' = σ
    ∧ layer = mk 512 512 filter CONTINUOUS defaultScale gradient
                (RadiusNumber 25) 10 0.025 retrievals absent.
Proof.
  intros Hσ. unfold newLayer. cbv zeta. rewrite Hσ.
  match goal with
  | |- context [GeographicalFilter.new points ?ds] =>
      destruct (GeographicalFilter.new points ds) as [filter|e] eqn:Hf;
        [|done]; intros H; exists ds
  end.
  match type of H with
  | context [setGradient ?l _ _] =>
      destruct (setGradient_CONTINUOUS l (Some ref) σ eq_refl)
        as (gradient & Hrun & Hset)
  end.
  rewrite Hset in H. injection H as <- <-. by exists filter, gradient.
Qed.

(** X9: the constructor of the layer.  An omitted or empty structure
    argument stands for GRID; any other string than GRID and ARRAY makes
    the constructor throw [ArgumentError].  A constructor that returns has
    left the array of points as it was, and the layer has tiles of 512 by
    512 pixels, a filter built from the points, the CONTINUOUS interval
    type, the default scale of five colors and the CONTINUOUS table of
    that scale as its gradient.  When every point lies in a cell of the
    grid, the constructor without a structure argument returns a layer
    with a GRID filter. *)
Theorem newLayer_defaults (displayName : string) (ref : Ref)
    (retrievals absent : list string) (σ : Store)
    (points : list MeasuredLocation) :
  σ !! ref = Some points →
  newLayer displayName ref None retrievals absent σ
  = newLayer displayName ref (Some "GRID") retrievals absent σ
  ∧ newLayer displayName ref (Some "") retrievals absent σ
    = newLayer displayName ref (Some "GRID") retrievals absent σ
  ∧ (∀ s, s ≠ "" → s ≠ "GRID" → s ≠ "ARRAY" →
       newLayer displayName ref (Some s) retrievals absent σ
       = (σ, Throw ArgumentError))
  ∧ (∀ usedDataStructure σ' layer,
       newLayer displayName ref usedDataStructure retrievals absent σ
       = (σ', Return layer) →
       σ' = σ ∧ builtFrom (_filter layer) points
       ∧ tileWidth layer = 512%Q ∧ tileHeight layer = 512%Q
       ∧ _intervalType layer = CONTINUOUS ∧ _scale layer = defaultScale
       ∧ continuousStops defaultScale ∅ = Return (_gradient layer))
  ∧ (Forall inGrid points →
       ∃ data layer,
         newLayer displayName ref None retrievals absent σ = (σ, Return layer)
         ∧ _filter layer = GridFilter data).
Proof.
  intros Hσ. split; [done|]. split; [done|]. split; [|split].
  - intros s H0 H1 H2. unfold newLayer. cbv zeta. rewrite Hσ.
    rewrite (bool_decide_eq_false_2 _ H0). unfold GeographicalFilter.new.
    by rewrite (bool_decide_eq_true_2 _ H1), (bool_decide_eq_true_2 _ H2).
  - intros uds σ' layer Hnew.
    destruct (newLayer_Return _ _ _ _ _ _ _ _ _ Hσ Hnew)
      as (ds & filter & gradient & Hf & Hg & -> & ->).
    split; [done|]. split; [by eapply new_builtFrom|]. by repeat split.
  - intros HP. destruct (new_GRID_inGrid points HP) as (data & Hdata & _).
    unfold newLayer. cbv zeta. rewrite Hσ, Hdata.
    match goal with
    | |- context [setGradient ?l _ _] =>
        destruct (setGradient_CONTINUOUS l (Some ref) σ eq_refl)
          as (gradient & Hrun & ->)
    end.
    by eexists data, _.
Qed.

(** The reference points, no structure argument: a layer with a GRID
    filter; the structure "TREE": [ArgumentError]. *)
Lemma newLayer_defaults_witness :
  (∃ data layer,
     newLayer "heat" 1%positive None [] [] {[1%positive := locationsToUseForTest]}
     = ({[1%positive := locationsToUseForTest]}, Return layer)
     ∧ _filter layer = GridFilter data)
  ∧ newLayer "heat" 1%positive (Some "TREE") [] []
      {[1%positive := locationsToUseForTest]}
    = ({[1%positive := locationsToUseForTest]}, Throw ArgumentError).
Proof.
  destruct (newLayer_defaults "heat" 1%positive [] []
              {[1%positive := locationsToUseForTest]} locationsToUseForTest)
    as (_ & _ & Herr & _ & Hgrid); [reflexivity|].
  split.
  - apply Hgrid, locationsToUseForTest_inGrid.
  - by apply Herr.
Defined.

(** ** What reaches the tile renderer *)

Lemma extended_contains (s : Sector) (lat lon : Q) :
  (minLatitude s <= maxLatitude s)%Q → (minLongitude s <= maxLongitude s)%Q →
  containsLocation s lat lon = true →
  containsLocation (extendedSector (calculateExtendedSector s)) lat lon = true.
Proof.
  intros Hlat Hlon. rewrite !containsLocation_iff. cbn.
  intros (H1 & H2 & H3 & H4). repeat split; lra.
Qed.

(** The primary pass of a query never misses a stored point of the
    region. *)
Lemma contained_in_collected (this : GeographicalFilter.t)
    (P raw : list MeasuredLocation) (s : Sector) (p : MeasuredLocation) :
  builtFrom this P → collected this s = Return raw →
  p ∈ P → containsLocation s (latitude p) (longitude p) = true → p ∈ raw.
Proof.
  intros Hb Hraw Hp Hc.
  assert (p ∈ flat_map (keepIn s) P) as Hk.
  { apply elem_of_flat_map. exists p. split; [done|]. by apply elem_of_keepIn. }
  destruct this as [data|data]; cbn in Hb, Hraw.
  - destruct Hb as [Hg HP]. rewrite (grid_cases data P s Hg) in Hraw.
    case_bool_decide; [done|]. injection Hraw as <-.
    rewrite !elem_of_app. left; left. unfold gridPrimaryPoints.
    by rewrite (primary_pass_Permutation P s HP).
  - subst data. injection Hraw as <-.
    unfold array, arrayAfterPass, arrayBeforePass, arrayPrimaryPass. cbn [app].
    repeat case_bool_decide; rewrite ?elem_of_app; tauto.
Qed.

(** X10: when [retrieveTileImage] reaches the tile renderer for a tile
    whose sector is not inverted, the points it hands over include every
    point of the layer's data that lies inside the tile's own sector, and
    they are ascending by latitude; the gradient, blur and increment handed
    over are the layer's. *)
Theorem tile_points_reach_renderer (P : list MeasuredLocation)
    (dataStructure : string) (this : t) (tile : Tile)
    (data : list MeasuredLocation) (options : TileOptions) :
  GeographicalFilter.new P dataStructure = Return (_filter this) →
  (minLatitude (sector tile) <= maxLatitude (sector tile))%Q →
  (minLongitude (sector tile) <= maxLongitude (sector tile))%Q →
  retrieveTileImage this tile = Return (Some (data, options)) →
  (∀ p, p ∈ P →
     containsLocation (sector tile) (latitude p) (longitude p) = true →
     p ∈ data)
  ∧ StronglySorted latitudeLe data
  ∧ intensityGradient options = _gradient this
  ∧ blur options = _blur this
  ∧ incrementPerIntensity options = _incrementPerIntensity this
  ∧ radius options = calculateRadius this (sector tile).
Proof.
  intros Hnew%new_builtFrom Hlat Hlon H. unfold retrieveTileImage in H.
  destruct (bool_decide (imagePath tile ∈ currentRetrievals this)); [done|].
  destruct (bool_decide (imagePath tile ∈ absentResources this)); [done|].
  destruct (filter (_filter this) (extendedSector (calculateExtendedSector (sector tile))))
    as [l|e] eqn:Hl; [|done].
  rewrite bind_Return in H. injection H as <- <-.
  split; [|split; [by eapply filter_ascending_latitude|done]].
  intros p Hp Hc. rewrite filter_collected in Hl.
  destruct (collected (_filter this) (extendedSector (calculateExtendedSector (sector tile))))
    as [raw|e] eqn:Hraw; [|done].
  rewrite bind_Return in Hl. injection Hl as <-.
  rewrite sort_Permutation.
  eapply contained_in_collected; [done..|]. by apply extended_contains.
Qed.

(** The reference layer and the tile that ends at the antimeridian: ten
    reference points lie in the tile's sector, among them the one at
    (20, 160); the extended sector wraps to the east, the passes collect
    the ten points and nine more, then nine copies from beyond the
    antimeridian whose latitudes are lower, and the renderer gets the
    nineteen in ascending latitude. *)
Lemma tile_points_reach_renderer_witness :
  ∃ data options,
    retrieveTileImage referenceLayer easternTile = Return (Some (data, options))
    ∧ length (List.filter (inSector (sector easternTile)) locationsToUseForTest)
      = 10%nat
    ∧ (∀ p, p ∈ locationsToUseForTest →
         containsLocation (sector easternTile) (latitude p) (longitude p) = true →
         p ∈ data)
    ∧ mkMeasuredLocation 20 160 10 ∈ data
    ∧ StronglySorted latitudeLe data
    ∧ map latitude data
      = [-45; -40; -35; -30; -25; -20; -15; -10; -5; 0; 5; 10; 15; 20; 25; 30;
         35; 40; 45]%Q
    ∧ ¬ StronglySorted latitudeLe
          (array locationsToUseForTest
             (extendedSector (calculateExtendedSector (sector easternTile)))).
Proof.
  destruct (retrieveTileImage referenceLayer easternTile)
    as [[[data options]|]|e] eqn:H; [|by vm_compute in H|by vm_compute in H].
  destruct (tile_points_reach_renderer locationsToUseForTest "ARRAY"
              referenceLayer easternTile data options)
    as (Hin & Hsort & _); [reflexivity|by vm_compute|by vm_compute|exact H|].
  exists data, options. split; [done|]. split; [reflexivity|].
  split; [exact Hin|]. split.
  { apply Hin; [|by vm_compute].
    unfold locationsToUseForTest. do 13 apply list_elem_of_further.
    apply list_elem_of_here. }
  split; [exact Hsort|]. split.
  { vm_compute in H. by injection H as <- _. }
  intros Hraw.
  match type of Hraw with
  | StronglySorted _ ?raw =>
      let v := eval vm_compute in raw in
      change raw with v in Hraw
  end.
  do 9 (apply StronglySorted_inv in Hraw as [Hraw _]).
  apply StronglySorted_inv in Hraw as [_ Hraw].
  apply Forall_inv in Hraw. by vm_compute in Hraw.
Defined.

(** X11: for a layer whose tile width and height are whole numbers of
    pixels, the canvas handed to the tile renderer is exactly three tiles
    wide and three tiles high, the sector drawn on it spans three times
    the tile's sector each way, and the tile's sector is its middle third:
    the margin on each side is one span of the tile. *)
Theorem extended_canvas_is_three_tiles (this : t) (tile : Tile)
    (data : list MeasuredLocation) (options : TileOptions) (w h : Z) :
  tileWidth this = inject_Z w → tileHeight this = inject_Z h →
  retrieveTileImage this tile = Return (Some (data, options)) →
  let s := sector tile in
  let e := optSector options in
  (width options == 3 * tileWidth this)%Q
  ∧ (height options == 3 * tileHeight this)%Q
  ∧ (maxLongitude e - minLongitude e == 3 * (maxLongitude s - minLongitude s))%Q
  ∧ (maxLatitude e - minLatitude e == 3 * (maxLatitude s - minLatitude s))%Q
  ∧ (minLongitude s - minLongitude e == maxLongitude s - minLongitude s)%Q
  ∧ (maxLongitude e - maxLongitude s == maxLongitude s - minLongitude s)%Q
  ∧ (minLatitude s - minLatitude e == maxLatitude s - minLatitude s)%Q
  ∧ (maxLatitude e - maxLatitude s == maxLatitude s - minLatitude s)%Q.
Proof.
  intros Hw Hh H. cbv zeta. unfold retrieveTileImage in H.
  destruct (bool_decide (imagePath tile ∈ currentRetrievals this)); [done|].
  destruct (bool_decide (imagePath tile ∈ absentResources this)); [done|].
  destruct (filter (_filter this) (extendedSector (calculateExtendedSector (sector tile))))
    as [l|err]; [|done].
  rewrite bind_Return in H. injection H as <- <-. cbn.
  rewrite Hw, Hh, !Qmult_1_l, !Qceiling_Z.
  repeat split; lra.
Qed.

(** The reference layer and tile: 1536 by 1536 pixels for 135 by 135
    degrees. *)
Lemma extended_canvas_is_three_tiles_witness :
  ∃ data options,
    retrieveTileImage referenceLayer referenceTile = Return (Some (data, options))
    ∧ (width options == 3 * 512)%Q
    ∧ (maxLongitude (optSector options) - minLongitude (optSector options)
       == 3 * 45)%Q.
Proof.
  destruct (retrieveTileImage referenceLayer referenceTile)
    as [[[data options]|]|e] eqn:H; [|by vm_compute in H|by vm_compute in H].
  destruct (extended_canvas_is_three_tiles referenceLayer referenceTile data options
              512 512 eq_refl eq_refl H) as (Hw & _ & Hlon & _).
  exists data, options. split; [done|]. split; [exact Hw|].
  rewrite Hlon. by vm_compute.
Defined.

(** X12: with the QUANTILES interval type, at least one point and fewer
    points than colors, [setGradient] returns the layer with the
    CONTINUOUS table of its scale, and leaves the caller's array sorted by
    measure. *)
Theorem quantiles_few_points_continuous_table (this : t) (ref : Ref) (σ : Store)
    (points : list MeasuredLocation) :
  _intervalType this = QUANTILES → σ !! ref = Some points →
  points ≠ [] → (length points < length (_scale this))%nat →
  ∃ gradient,
    continuousStops (_scale this) ∅ = Return gradient
    ∧ setGradient this (Some ref) σ
      = (<[ref := JSArray.sort compareMeasures points]> σ,
         Return (set_gradient this gradient)).
Proof.
  intros Hq Hσ Hne Hlen.
  destruct (continuousStops_spec (_scale this)) as (gradient & Hrun & _).
  exists gradient. split; [exact Hrun|].
  unfold setGradient. rewrite Hq, Hσ.
  pose proof (sort_length compareMeasures points) as Hl.
  destruct (last (JSArray.sort compareMeasures points)) as [lastPoint|] eqn:Hlast.
  - rewrite (proj2 (Nat.leb_gt _ _)) by lia. by rewrite Hrun.
  - apply last_None in Hlast. rewrite Hlast in Hl.
    destruct points; [done|simpl in Hl; lia].
Qed.

(** The quantile layer with its five colors and three points. *)
Lemma quantiles_few_points_continuous_table_witness :
  ∃ gradient,
    continuousStops (_scale quantilesLayer) ∅ = Return gradient
    ∧ setGradient quantilesLayer (Some 1%positive) {[1%positive := unsortedMeasures]}
      = (<[1%positive := JSArray.sort compareMeasures unsortedMeasures]>
           {[1%positive := unsortedMeasures]},
         Return (set_gradient quantilesLayer gradient)).
Proof.
  apply (quantiles_few_points_continuous_table quantilesLayer 1%positive
           {[1%positive := unsortedMeasures]} unsortedMeasures).
  - reflexivity.
  - reflexivity.
  - discriminate.
  - simpl. lia.
Defined.
